(** * BitfinexFundingBot: event classification and offer-lifecycle decisions

    A shallow embedding of [funding_bot.py] and the properties of its
    dispatcher, offer ledger and decision engine.

    Modelling conventions.
    - A decoded message ([json.loads]) is a value of type [json].
    - A decoded number is held by its exact value in [Q], which is what
      Python's [==], [>=] and [hash] see of an [int] or of a finite
      [float]: an integer value stands for an [int], any other value for
      a [float] (a float with an integer value compares, hashes and
      subtracts like the int of that value).  Decoded infinities and
      [NaN] are left out.  Where the source computes with floats (the age
      of an offer, the nonce, the percentage printed) the model computes
      in IEEE 754 binary64, round to nearest with ties to even, on
      [spec_float]: a value enters that arithmetic through [float_of_Q],
      which is exact on a double and rounds an [int] as Python's
      conversion does.
    - A Python exception is a value [Raise e] of the result type; every
      function of the source that can raise returns a result.
    - The module-level globals ([funding_available_usd], [active_offers],
      [last_bid_rate], [last_bid_period]) are the fields of [world]; code
      that reads or writes them lives in the monad [M], which also
      collects the frames written to the socket and the lines printed.
    - [active_offers] is a Python [dict]: an insertion-ordered map.  It is
      an association list in insertion order, compared on keys with
      Python's key equality ([True == 1 == 1.0]). *)

From Stdlib Require Import ZArith QArith Qround List String Ascii Bool Lia Lqa.
From Stdlib Require Import Floats.SpecFloat.
Import ListNotations.

Set Implicit Arguments.
Set Warnings "-register-all".

(** ** Python values *)

Inductive exn : Type :=
| AssertionError
| KeyError
| IndexError
| TypeError
| AttributeError
| ValueError
| OverflowError
| OSError
| ConnectionClosed
| SystemExit.

Inductive res (A : Type) : Type :=
| Ok (a : A)
| Raise (e : exn).

Arguments Ok {A} a.
Arguments Raise {A} e.

Inductive json : Type :=
| JNull
| JBool (b : bool)
| JNum (q : Q)
| JStr (s : string)
| JList (items : list json)
| JDict (fields : list (string * json)).

(** Hashable values: what can be a key of a [dict]. *)
Inductive key : Type :=
| KNone
| KBool (b : bool)
| KNum (q : Q)
| KStr (s : string).

Definition json_of_key (k : key) : json :=
  match k with
  | KNone => JNull
  | KBool b => JBool b
  | KNum q => JNum q
  | KStr s => JStr s
  end.

(** [hash(v)]: lists and dicts are unhashable. *)
Definition py_hash (v : json) : res key :=
  match v with
  | JNull => Ok KNone
  | JBool b => Ok (KBool b)
  | JNum q => Ok (KNum q)
  | JStr s => Ok (KStr s)
  | JList _ | JDict _ => Raise TypeError
  end.

Definition Q_of_bool (b : bool) : Q := if b then 1%Q else 0%Q.

Definition key_num (k : key) : option Q :=
  match k with
  | KBool b => Some (Q_of_bool b)
  | KNum q => Some q
  | KNone | KStr _ => None
  end.

(** Python's [==] on scalars: [bool] is a number, a number never equals a
    string or [None]. *)
Definition key_eq (a b : key) : bool :=
  match key_num a, key_num b with
  | Some x, Some y => Qeq_bool x y
  | None, None =>
      match a, b with
      | KNone, KNone => true
      | KStr s, KStr t => String.eqb s t
      | _, _ => false
      end
  | _, _ => false
  end.

(** [v == c] for a scalar constant [c]; a list or a dict equals no scalar. *)
Definition py_eq (v : json) (c : key) : bool :=
  match v with
  | JNull => key_eq KNone c
  | JBool b => key_eq (KBool b) c
  | JNum q => key_eq (KNum q) c
  | JStr s => key_eq (KStr s) c
  | JList _ | JDict _ => false
  end.

Fixpoint lookup_field (k : string) (fields : list (string * json)) : option json :=
  match fields with
  | [] => None
  | (k', v) :: rest => if String.eqb k' k then Some v else lookup_field k rest
  end.

Fixpoint is_substring (p s : string) : bool :=
  if String.prefix p s then true
  else match s with
       | EmptyString => false
       | String _ s' => is_substring p s'
       end.

Fixpoint chars (s : string) : list json :=
  match s with
  | EmptyString => []
  | String c s' => JStr (String c EmptyString) :: chars s'
  end.

(** [v[i]] for a constant index [i >= 0]. *)
Definition getitem_int (v : json) (i : nat) : res json :=
  match v with
  | JList items =>
      match nth_error items i with
      | Some x => Ok x
      | None => Raise IndexError
      end
  | JStr s =>
      match String.get i s with
      | Some c => Ok (JStr (String c EmptyString))
      | None => Raise IndexError
      end
  | JDict _ => Raise KeyError
  | JNull | JBool _ | JNum _ => Raise TypeError
  end.

(** [v[k]] for a string constant [k]. *)
Definition getitem_str (v : json) (k : string) : res json :=
  match v with
  | JDict fields =>
      match lookup_field k fields with
      | Some x => Ok x
      | None => Raise KeyError
      end
  | JNull | JBool _ | JNum _ | JStr _ | JList _ => Raise TypeError
  end.

(** [k in v] for a string constant [k]. *)
Definition contains_str (k : string) (v : json) : res bool :=
  match v with
  | JDict fields =>
      Ok (match lookup_field k fields with Some _ => true | None => false end)
  | JList items => Ok (existsb (fun x => py_eq x (KStr k)) items)
  | JStr s => Ok (is_substring k s)
  | JNull | JBool _ | JNum _ => Raise TypeError
  end.

(** [for item in v]: the items the loop visits. *)
Definition py_iter (v : json) : res (list json) :=
  match v with
  | JList items => Ok items
  | JStr s => Ok (chars s)
  | JDict fields => Ok (map (fun kv => JStr (fst kv)) fields)
  | JNull | JBool _ | JNum _ => Raise TypeError
  end.

(** ** Floats

    Python's [float] is IEEE 754 binary64; the operations are those of
    the Standard Library's specification at precision 53. *)

Definition float : Type := spec_float.

Definition float_mul : float -> float -> float := SFmul 53 1024.
Definition float_sub : float -> float -> float := SFsub 53 1024.

(** [x < y]; false when either is [NaN]. *)
Definition float_lt (x y : float) : bool := SFltb x y.

(** The double nearest to [q], ties to even: the value of a float
    literal and of [float(n)] for an [int] [n]; an infinity when [q] is
    beyond the range of the doubles. *)
Definition float_of_Q (q : Q) : float :=
  match Qnum q with
  | Z0 => S754_zero false
  | Zpos n => SFdiv 53 1024 (S754_finite false n 0) (S754_finite false (Qden q) 0)
  | Zneg n => SFdiv 53 1024 (S754_finite true n 0) (S754_finite false (Qden q) 0)
  end.

Definition is_infinite (x : float) : bool :=
  match x with
  | S754_infinity _ => true
  | _ => false
  end.

(** The operand [v] of [x - v] for a float [x]: a float is taken as it
    is, an [int] or a [bool] is converted, which raises [OverflowError]
    for an [int] beyond the range of the doubles. *)
Definition py_float (v : json) : res float :=
  match v with
  | JNum q =>
      if is_infinite (float_of_Q q) then Raise OverflowError
      else Ok (float_of_Q q)
  | JBool b => Ok (float_of_Q (Q_of_bool b))
  | JNull | JStr _ | JList _ | JDict _ => Raise TypeError
  end.

(** [x - v] for a float [x]. *)
Definition py_sub (x : float) (v : json) : res float :=
  match py_float v with
  | Ok y => Ok (float_sub x y)
  | Raise e => Raise e
  end.

(** [int(x)]: truncation towards zero. *)
Definition py_int (x : float) : res Z :=
  match x with
  | S754_zero _ => Ok 0%Z
  | S754_finite s m e => Ok (cond_Zopp s (Z.shiftl (Zpos m) e))
  | S754_infinity _ => Raise OverflowError
  | S754_nan => Raise ValueError
  end.

Arguments float_mul : simpl never.
Arguments float_sub : simpl never.
Arguments float_lt : simpl never.
Arguments float_of_Q : simpl never.

(** The operand [v] of [v >= x] for a float [x]: Python compares an
    [int] with a float by their exact values, without converting. *)
Definition py_number (v : json) : res Q :=
  match v with
  | JNum q => Ok q
  | JBool b => Ok (Q_of_bool b)
  | JNull | JStr _ | JList _ | JDict _ => Raise TypeError
  end.

Fixpoint repeat_string (n : nat) (s : string) : string :=
  match n with
  | O => EmptyString
  | S n' => String.append s (repeat_string n' s)
  end.

(** The value of a product: exact for an [int], a string or a list,
    a double for a float. *)
Inductive product : Type :=
| Exact (v : json)
| Rounded (x : float).

Definition is_integral (q : Q) : bool := Qeq_bool q (inject_Z (Qfloor q)).

(** [v * 100]: a number is scaled, a string or a list is repeated.  The
    product of an [int] is exact, the product of a float is rounded. *)
Definition py_mul_100 (v : json) : res product :=
  match v with
  | JNum q =>
      Ok (if is_integral q then Exact (JNum (q * 100))
          else Rounded (float_mul (float_of_Q q) (float_of_Q 100)))
  | JBool b => Ok (Exact (JNum (Q_of_bool b * 100)))
  | JStr s => Ok (Exact (JStr (repeat_string 100 s)))
  | JList items => Ok (Exact (JList (List.concat (repeat items 100))))
  | JNull | JDict _ => Raise TypeError
  end.

(** ** Program state, effects and the monad of the handlers *)

(** An entry of [active_offers]: the dict [offer] built by [update_offer]. *)
Record offer : Type := mkOffer {
  time : json;
  amount : json;
  rate : json
}.

Definition ledger : Type := list (key * offer).

(** The module-level globals that the handlers read and write. *)
Record world : Type := mkWorld {
  funding_available_usd : json;
  active_offers : ledger;
  last_bid_rate : json;
  last_bid_period : json
}.

Definition max_offer_pending_time : Q := 120.
Definition min_offer_amount : Q := 50.

Definition initial_world : world :=
  {| funding_available_usd := JNum 0;
     active_offers := [];
     last_bid_rate := JNum 0;
     last_bid_period := JNum 30 |}.

(** Frames written to the socket, before [json.dumps]:
    [Subscribe c] is [{'event':'subscribe','channel':c,'symbol':'fUSD'}],
    [Auth k n s] the authentication payload for key [k], nonce [n] and a
    signature keyed with [s], [NewOffer a r p] is
    [[0,'fon',None,{..,'amount':str(a),'rate':str(r),'period':p}]] and
    [CancelOffer id] is [[0,'foc',None,{'id':id}]]. *)
Inductive command : Type :=
| Subscribe (channel : string)
| Auth (api_key : json) (auth_nonce : Z) (api_secret : string)
| NewOffer (amount : Q) (rate period : json)
| CancelOffer (id : key).

(** Lines written by [print]. *)
Inductive log : Type :=
| LogUsage
| LogMessage (message : json)
| LogAuthenticated
| LogSubscribed (channel symbol : json)
| LogPrivateHeartBeat
| LogActiveOffers (offers : ledger)
| LogAvailableFunding (balance : json)
| LogLastBid (percent : product) (period : json)
| LogCancelled (id : key) (age : float)
| LogSubmitted
| LogException (e : exn).

Inductive effect : Type :=
| EConnect
| ESend (c : command)
| EPrint (l : log).

(** A handler: from the globals to the new globals, the effects performed
    and the value returned or the exception raised.  The globals and the
    effects survive an exception. *)
Definition M (A : Type) : Type := world -> world * list effect * res A.

Definition ret {A} (a : A) : M A := fun w => (w, [], Ok a).

Definition bind {A B} (m : M A) (f : A -> M B) : M B :=
  fun w =>
    match m w with
    | (w1, o1, Ok a) =>
        match f a w1 with
        | (w2, o2, r) => (w2, o1 ++ o2, r)
        end
    | (w1, o1, Raise e) => (w1, o1, Raise e)
    end.

Definition lift {A} (r : res A) : M A := fun w => (w, [], r).
Definition get : M world := fun w => (w, [], Ok w).
Definition put (w' : world) : M unit := fun _ => (w', [], Ok tt).
Definition emit (e : effect) : M unit := fun w => (w, [e], Ok tt).
Definition send (c : command) : M unit := emit (ESend c).
Definition print (l : log) : M unit := emit (EPrint l).
Definition raise {A} (e : exn) : M A := lift (Raise e).

Declare Scope py_scope.
Delimit Scope py_scope with py.
Notation "x <- m ;; k" := (bind m (fun x => k))
  (at level 100, m at next level, right associativity) : py_scope.
Notation "m ;;; k" := (bind m (fun _ => k))
  (at level 100, right associativity) : py_scope.
Local Open Scope py_scope.

Definition bind_res {A B} (r : res A) (f : A -> res B) : res B :=
  match r with
  | Ok a => f a
  | Raise e => Raise e
  end.

Notation "x <~ r ;; k" := (bind_res r (fun x => k))
  (at level 100, r at next level, right associativity) : py_scope.

(** Python's short-circuit [a and b] on conditions that may raise. *)
Definition and_then (a b : res bool) : res bool :=
  x <~ a ;; if x then b else Ok false.

Infix "&&&" := and_then (at level 40, left associativity) : py_scope.

Fixpoint for_each {A} (f : A -> M unit) (l : list A) : M unit :=
  match l with
  | [] => ret tt
  | x :: rest => f x ;;; for_each f rest
  end.

(** ** The classifier predicates *)

Definition is_dict (message : json) : bool :=
  match message with JDict _ => true | _ => false end.

Definition is_list (message : json) : bool :=
  match message with JList _ => true | _ => false end.

Definition get_event (message : json) : res json :=
  if is_dict message then getitem_str message "event" else Raise AssertionError.

Definition get_type (message : json) : res json :=
  if is_list message then getitem_int message 1 else Raise AssertionError.

Definition eq_const (r : res json) (c : key) : res bool :=
  v <~ r ;; Ok (py_eq v c).

Definition ne_const (r : res json) (c : key) : res bool :=
  v <~ r ;; Ok (negb (py_eq v c)).

Definition is_connected (message : json) : res bool :=
  Ok (is_dict message) &&&
  eq_const (get_event message) (KStr "info") &&&
  contains_str "platform" message &&&
  (p <~ getitem_str message "platform" ;; contains_str "status" p) &&&
  eq_const (p <~ getitem_str message "platform" ;; getitem_str p "status") (KNum 1).

Definition is_authenticated (message : json) : res bool :=
  Ok (is_dict message) &&&
  eq_const (get_event message) (KStr "auth") &&&
  eq_const (getitem_str message "status") (KStr "OK").

Definition is_error (message : json) : res bool :=
  Ok (is_dict message) &&&
  eq_const (get_event message) (KStr "error").

Definition is_subscribed (message : json) : res bool :=
  Ok (is_dict message) &&&
  eq_const (get_event message) (KStr "subscribed").

Definition is_heart_beat (message : json) : res bool :=
  Ok (is_list message) &&&
  eq_const (get_type message) (KStr "hb").

Definition is_wallet_update (message : json) : res bool :=
  Ok (is_list message) &&&
  eq_const (get_type message) (KStr "wu").

Definition is_public_funding_trade_executed (message : json) : res bool :=
  Ok (is_list message) &&&
  ne_const (getitem_int message 0) (KNum 0) &&&
  eq_const (get_type message) (KStr "fte").

Definition is_funding_offer_snapshot (message : json) : res bool :=
  Ok (is_list message) &&&
  eq_const (getitem_int message 0) (KNum 0) &&&
  eq_const (getitem_int message 1) (KStr "fos").

Definition is_funding_offer_update (message : json) : res bool :=
  Ok (is_list message) &&&
  eq_const (getitem_int message 0) (KNum 0) &&&
  (v <~ getitem_int message 1 ;;
   Ok (existsb (py_eq v) [KStr "fon"; KStr "fou"; KStr "foc"])).

Definition is_public_funding_ticker (message : json) : res bool :=
  Ok (is_list message) &&&
  ne_const (getitem_int message 0) (KNum 0) &&&
  (v <~ getitem_int message 1 ;; Ok (is_list v)) &&&
  (v <~ getitem_int message 1 ;; x <~ getitem_int v 0 ;; Ok (negb (is_list x))).

(** ** The offer ledger: [active_offers] as an insertion-ordered dict *)

(** [id in offers] *)
Definition ledger_mem (id : key) (offers : ledger) : bool :=
  existsb (fun e => key_eq (fst e) id) offers.

(** [offers[id]] *)
Fixpoint ledger_get (id : key) (offers : ledger) : option offer :=
  match offers with
  | [] => None
  | (k, o) :: rest => if key_eq k id then Some o else ledger_get id rest
  end.

(** [offers[id] = o]: an existing key keeps its place and its key object,
    a new key goes last. *)
Fixpoint ledger_set (id : key) (o : offer) (offers : ledger) : ledger :=
  match offers with
  | [] => [(id, o)]
  | (k, o') :: rest =>
      if key_eq k id then (k, o) :: rest else (k, o') :: ledger_set id o rest
  end.

(** [del offers[id]] *)
Definition ledger_del (id : key) (offers : ledger) : ledger :=
  filter (fun e => negb (key_eq (fst e) id)) offers.

Definition set_active_offers (offers : ledger) (w : world) : world :=
  {| funding_available_usd := funding_available_usd w;
     active_offers := offers;
     last_bid_rate := last_bid_rate w;
     last_bid_period := last_bid_period w |}.

Definition set_funding_available_usd (v : json) (w : world) : world :=
  {| funding_available_usd := v;
     active_offers := active_offers w;
     last_bid_rate := last_bid_rate w;
     last_bid_period := last_bid_period w |}.

Definition set_last_bid (r p : json) (w : world) : world :=
  {| funding_available_usd := funding_available_usd w;
     active_offers := active_offers w;
     last_bid_rate := r;
     last_bid_period := p |}.

(** ** The handlers *)

Definition subscribe_funding_trades : M unit := send (Subscribe "trades").

Definition subscribe_funding_tickers : M unit := send (Subscribe "ticker").

(** The process environment of [login]: [sys.argv], and what opening the
    named file and decoding its content as JSON gives. *)
Record env : Type := mkEnv {
  argv : list string;
  read_config : string -> res json
}.

Definition encode (v : json) : res string :=
  match v with
  | JStr s => Ok s
  | _ => Raise AttributeError
  end.

(** [datetime.datetime.now().timestamp()], a float: [clock] is the
    exact value of the reading. *)
Definition timestamp (clock : Q) : float := float_of_Q clock.

Definition login (e : env) (clock : Q) : M unit :=
  if negb (Nat.eqb (List.length (argv e)) 2) then
    print LogUsage ;;; raise SystemExit
  else
    params <- lift (read_config e (nth 1 (argv e) EmptyString)) ;;
    api_key <- lift (getitem_str params "key") ;;
    api_secret <- lift (getitem_str params "secret") ;;
    auth_nonce <- lift (py_int (float_mul (timestamp clock) (float_of_Q 1000000))) ;;
    secret <- lift (encode api_secret) ;;
    send (Auth api_key auth_nonce secret).

Definition submit_offer (amount : Q) (rate period : json) : M unit :=
  send (NewOffer amount rate period).

Definition cancel_offer (id : key) : M unit :=
  send (CancelOffer id).

Definition update_offer (message : json) : M unit :=
  id <- lift (getitem_int message 0) ;;
  t <- lift (getitem_int message 3) ;;
  a <- lift (getitem_int message 4) ;;
  r <- lift (getitem_int message 14) ;;
  let offer := {| time := t; amount := a; rate := r |} in
  status <- lift (getitem_int message 10) ;;
  k <- lift (py_hash id) ;;
  w <- get ;;
  if negb (py_eq status (KStr "ACTIVE")) then
    if ledger_mem k (active_offers w) then
      put (set_active_offers (ledger_del k (active_offers w)) w)
    else ret tt
  else
    put (set_active_offers (ledger_set k offer (active_offers w)) w).

Definition print_active_offers : M unit :=
  w <- get ;; print (LogActiveOffers (active_offers w)).

Definition update_funding_available_usd (message : json) : M unit :=
  m2 <- lift (getitem_int message 2) ;;
  v <- lift (getitem_int m2 4) ;;
  w <- get ;;
  put (set_funding_available_usd v w) ;;;
  print (LogAvailableFunding v).

Definition update_public_ticker (message : json) : M unit :=
  m1 <- lift (getitem_int message 1) ;;
  r <- lift (getitem_int m1 1) ;;
  w <- get ;;
  put (set_last_bid r (last_bid_period w) w) ;;;
  m1' <- lift (getitem_int message 1) ;;
  p <- lift (getitem_int m1' 2) ;;
  w' <- get ;;
  put (set_last_bid (last_bid_rate w') p w') ;;;
  pct <- lift (py_mul_100 r) ;;
  print (LogLastBid pct p).

(** One iteration of the cancellation loop, on the entry of key [id]. *)
Definition cancel_if_old (current_time : float) (entry : key * offer) : M unit :=
  let (id, o) := entry in
  let last_update_time := time o in
  elapsed <- lift (py_sub current_time last_update_time) ;;
  let age := float_mul elapsed (float_of_Q (1 # 1000)) in
  if float_lt (float_of_Q max_offer_pending_time) age then
    cancel_offer id ;;;
    print (LogCancelled id age)
  else ret tt.

Definition make_offer_decision (clock : Q) : M unit :=
  let current_time := float_mul (timestamp clock) (float_of_Q 1000) in
  w <- get ;;
  for_each (cancel_if_old current_time) (active_offers w) ;;;
  w' <- get ;;
  balance <- lift (py_number (funding_available_usd w')) ;;
  if Qle_bool min_offer_amount balance then
    submit_offer min_offer_amount (last_bid_rate w') (last_bid_period w') ;;;
    print LogSubmitted
  else ret tt.

Definition test (c : res bool) : M bool := lift c.

Definition dispatch (e : env) (clock : Q) (message : json) : M unit :=
  b <- test (is_error message) ;;
  if b then print (LogMessage message) else
  b <- test (is_connected message) ;;
  if b then
    login e clock ;;;
    subscribe_funding_trades ;;;
    subscribe_funding_tickers
  else
  b <- test (is_authenticated message) ;;
  if b then print LogAuthenticated else
  b <- test (is_subscribed message) ;;
  if b then
    channel <- lift (getitem_str message "channel") ;;
    symbol <- lift (getitem_str message "symbol") ;;
    print (LogSubscribed channel symbol)
  else
  b <- test (is_heart_beat message) ;;
  if b then
    public <- test (ne_const (getitem_int message 0) (KNum 0)) ;;
    if public then ret tt else
    print LogPrivateHeartBeat ;;;
    make_offer_decision clock
  else
  b <- test (is_wallet_update message) ;;
  if b then
    b' <- test (eq_const (m2 <~ getitem_int message 2 ;; getitem_int m2 0)
                         (KStr "funding") &&&
                eq_const (m2 <~ getitem_int message 2 ;; getitem_int m2 1)
                         (KStr "USD")) ;;
    if b' then update_funding_available_usd message else ret tt
  else
  b <- test (is_funding_offer_update message) ;;
  if b then
    m2 <- lift (getitem_int message 2) ;;
    update_offer m2 ;;;
    print_active_offers
  else
  b <- test (is_funding_offer_snapshot message) ;;
  if b then
    m2 <- lift (getitem_int message 2) ;;
    items <- lift (py_iter m2) ;;
    for_each update_offer items ;;;
    print_active_offers
  else
  b <- test (is_public_funding_ticker message) ;;
  if b then
    update_public_ticker message ;;;
    make_offer_decision clock
  else ret tt.

(** ** The receive loop and the reconnect loop *)

(** A frame received on the socket: the clock reading while it is handled
    and its payload, [None] when [json.loads] rejects it. *)
Record frame : Type := mkFrame {
  frame_clock : Q;
  frame_payload : option json
}.

Definition json_loads (payload : option json) : res json :=
  match payload with
  | Some v => Ok v
  | None => Raise ValueError
  end.

(** [consume]: the frames are handled one after the other, each one under
    the lock. *)
Fixpoint consume (e : env) (frames : list frame) : M unit :=
  match frames with
  | [] => ret tt
  | f :: rest =>
      message <- lift (json_loads (frame_payload f)) ;;
      dispatch e (frame_clock f) message ;;;
      consume e rest
  end.

(** What one iteration of [connect] meets: the connection is refused
    ([websockets.connect] raises), or it is established, delivers frames,
    and then closes, cleanly or with [ConnectionClosed]. *)
Inductive session : Type :=
| Refused
| Established (frames : list frame) (clean : bool).

Definition run_session (e : env) (s : session) : M unit :=
  emit EConnect ;;;
  match s with
  | Refused => raise OSError
  | Established frames clean =>
      consume e frames ;;;
      if clean then ret tt else raise ConnectionClosed
  end.

Inductive status : Type :=
| Running
| Exited.

(** [except Exception] does not catch [SystemExit]. *)
Definition is_exception (x : exn) : bool :=
  match x with
  | SystemExit => false
  | _ => true
  end.

(** [connect] over the sessions the environment offers; [Running] when
    the loop is still going after the last of them. *)
Fixpoint connect (e : env) (sessions : list session) (w : world)
  : world * list effect * status :=
  match sessions with
  | [] => (w, [], Running)
  | s :: rest =>
      match run_session e s w with
      | (w1, o1, Ok _) =>
          match connect e rest w1 with
          | (w2, o2, st) => (w2, o1 ++ o2, st)
          end
      | (w1, o1, Raise x) =>
          if is_exception x then
            match connect e rest w1 with
            | (w2, o2, st) => (w2, o1 ++ EPrint (LogException x) :: o2, st)
            end
          else (w1, o1, Exited)
      end
  end.

(** ** The classifier

    The source has no classifier function: the variant of a message is
    the branch that the [if]/[elif] chain of [dispatch] takes.  [classify]
    is that chain, with the predicates evaluated in the same order. *)

Inductive event : Type :=
| Error
| Connected
| Authenticated
| Subscribed
| HeartBeat (channel : json)
| WalletUpdate
| FundingOfferUpdate
| FundingOfferSnapshot
| PublicFundingTicker
| Unrecognized.

Definition classify (message : json) : res event :=
  b <~ is_error message ;;
  if b then Ok Error else
  b <~ is_connected message ;;
  if b then Ok Connected else
  b <~ is_authenticated message ;;
  if b then Ok Authenticated else
  b <~ is_subscribed message ;;
  if b then Ok Subscribed else
  b <~ is_heart_beat message ;;
  if b then (c <~ getitem_int message 0 ;; Ok (HeartBeat c)) else
  b <~ is_wallet_update message ;;
  if b then Ok WalletUpdate else
  b <~ is_funding_offer_update message ;;
  if b then Ok FundingOfferUpdate else
  b <~ is_funding_offer_snapshot message ;;
  if b then Ok FundingOfferSnapshot else
  b <~ is_public_funding_ticker message ;;
  if b then Ok PublicFundingTicker else
  Ok Unrecognized.

(** Projections of a handler's outcome. *)
Definition world_of {A} (r : world * list effect * res A) : world := fst (fst r).
Definition effects_of {A} (r : world * list effect * res A) : list effect := snd (fst r).
Definition result_of {A} (r : world * list effect * res A) : res A := snd r.

Definition sent (o : list effect) : list command :=
  flat_map (fun e => match e with ESend c => [c] | _ => [] end) o.

Definition is_cancel (c : command) : bool :=
  match c with CancelOffer _ => true | _ => false end.

Definition is_submit (c : command) : bool :=
  match c with NewOffer _ _ _ => true | _ => false end.

(** ** Sample messages *)

Definition num (z : Z) : json := JNum (inject_Z z).

Definition offer_record (id created amt : Z) (st : string) (r : Q) : json :=
  JList [num id; JNull; JNull; num created; num amt; num amt; JStr "LIMIT";
         JNull; JNull; JNull; JStr st; JNull; JNull; JNull; JNum r;
         num 2; num 0; num 0; JNull; num 0; JNull].

Definition env0 : env :=
  {| argv := ["funding_bot.py"%string; "config.json"%string];
     read_config := fun _ =>
       Ok (JDict [("key"%string, JStr "k"); ("secret"%string, JStr "s")]) |}.

(** ** Auxiliary definitions for the statements *)

(** The representation invariant of the dict: no two entries have equal
    keys. *)
Fixpoint ledger_wf (offers : ledger) : bool :=
  match offers with
  | [] => true
  | (k, _) :: rest => negb (ledger_mem k rest) && ledger_wf rest
  end.

(** The clock reading in milliseconds, as a double. *)
Definition now_ms (clock : Q) : float :=
  float_mul (float_of_Q clock) (float_of_Q 1000).

(** The age of an offer created at [created] milliseconds, at the clock
    reading [clock]: now minus the creation time, in milliseconds and
    converted to seconds, each operation rounded to the nearest double. *)
Definition age_ms (clock : Q) (created : float) : float :=
  float_sub (now_ms clock) created.

Definition age_seconds (clock : Q) (created : float) : float :=
  float_mul (age_ms clock created) (float_of_Q (1 # 1000)).

(** The age strictly exceeds 120 seconds. *)
Definition exceeds_120 (age : float) : bool := float_lt (float_of_Q 120) age.

(** The offer was created at a time that is a number within the range of
    the doubles, and its age at [clock] exceeds 120 seconds. *)
Definition stale (clock : Q) (entry : key * offer) : bool :=
  match py_float (time (snd entry)) with
  | Ok created => exceeds_120 (age_seconds clock created)
  | Raise _ => false
  end.

(** The effects of the iteration of the cancellation loop on [entry]. *)
Definition cancel_effects (clock : Q) (entry : key * offer) : list effect :=
  match py_float (time (snd entry)) with
  | Ok created =>
      if exceeds_120 (age_seconds clock created)
      then [ESend (CancelOffer (fst entry));
            EPrint (LogCancelled (fst entry) (age_seconds clock created))]
      else []
  | Raise _ => []
  end.

(** The value can be subtracted from a float: a number, an [int] within
    the range of the doubles. *)
Definition convertible (v : json) : bool :=
  match py_float v with Ok _ => true | Raise _ => false end.

(** Every stored creation time can be subtracted from the clock reading:
    the cancellation pass visits every entry. *)
Definition times_convertible (offers : ledger) : bool :=
  forallb (fun e => convertible (time (snd e))) offers.

(** The exception of the first entry at which the cancellation pass
    stops. *)
Fixpoint first_failure (offers : ledger) : res unit :=
  match offers with
  | [] => Ok tt
  | entry :: rest =>
      match py_float (time (snd entry)) with
      | Ok _ => first_failure rest
      | Raise x => Raise x
      end
  end.

(** The effects of the submission step. *)
Definition submit_effects (w : world) : list effect :=
  match py_number (funding_available_usd w) with
  | Ok b =>
      if Qle_bool min_offer_amount b
      then [ESend (NewOffer min_offer_amount (last_bid_rate w) (last_bid_period w));
            EPrint LogSubmitted]
      else []
  | Raise _ => []
  end.

Definition cancels_for (id : key) (cmds : list command) : nat :=
  List.length
    (filter (fun c => match c with CancelOffer k => key_eq k id | _ => false end)
            cmds).

Definition submits (cmds : list command) : list command := filter is_submit cmds.

(** Two offers in the ledger, created 121 s and 119 s before the clock
    reads 1000 s, and a balance of 100. *)
Definition sample_world : world :=
  {| funding_available_usd := num 100;
     active_offers :=
       [(KNum 1, {| time := num 879000; amount := num 50; rate := JNum (3#10000) |});
        (KNum 2, {| time := num 881000; amount := num 50; rate := JNum (3#10000) |})];
     last_bid_rate := JNum (2#10000);
     last_bid_period := num 30 |}.

(** An active offer record whose creation time field is [created]. *)
Definition timed_record (id : Z) (created : json) : json :=
  JList [num id; JNull; JNull; created; num 50; num 50; JStr "LIMIT";
         JNull; JNull; JNull; JStr "ACTIVE"; JNull; JNull; JNull;
         JNum (3#10000); num 2; num 0; num 0; JNull; num 0; JNull].

(** A snapshot whose first record carries its creation time as a string
    and whose second record was created at 0 ms. *)
Definition string_time_snapshot : json :=
  JList [JNum 0; JStr "fos";
         JList [timed_record 1 (JStr "1700000000000"); timed_record 2 (num 0)]].

(** The clock reading [0x1.9558924209375p+30] seconds, a double, and a
    ledger with one offer created at 1700144152509 ms. *)
Definition boundary_clock : Q := 7130921922761589 # 4194304.

Definition boundary_world : world :=
  {| funding_available_usd := num 0;
     active_offers :=
       [(KNum 1, {| time := num 1700144152509; amount := num 50;
                    rate := JNum (3#10000) |})];
     last_bid_rate := JNum (2#10000);
     last_bid_period := num 30 |}.

(** A ledger whose first offer carries the int [2 ^ 1024] as its creation
    time, before an offer created at 0 ms, with a balance of 100. *)
Definition huge_time_world : world :=
  {| funding_available_usd := num 100;
     active_offers :=
       [(KNum 1, {| time := num (2 ^ 1024); amount := num 50;
                    rate := JNum (3#10000) |});
        (KNum 2, {| time := num 0; amount := num 50; rate := JNum (3#10000) |})];
     last_bid_rate := JNum (2#10000);
     last_bid_period := num 30 |}.

(** The body of the branch of [dispatch] that handles a message of
    variant [ev]. *)
Definition handle (e : env) (clock : Q) (message : json) (ev : event) : M unit :=
  match ev with
  | Error => print (LogMessage message)
  | Connected =>
      login e clock ;;;
      subscribe_funding_trades ;;;
      subscribe_funding_tickers
  | Authenticated => print LogAuthenticated
  | Subscribed =>
      channel <- lift (getitem_str message "channel") ;;
      symbol <- lift (getitem_str message "symbol") ;;
      print (LogSubscribed channel symbol)
  | HeartBeat c =>
      if negb (py_eq c (KNum 0)) then ret tt else
      print LogPrivateHeartBeat ;;;
      make_offer_decision clock
  | WalletUpdate =>
      b' <- test (eq_const (m2 <~ getitem_int message 2 ;; getitem_int m2 0)
                           (KStr "funding") &&&
                  eq_const (m2 <~ getitem_int message 2 ;; getitem_int m2 1)
                           (KStr "USD")) ;;
      if b' then update_funding_available_usd message else ret tt
  | FundingOfferUpdate =>
      m2 <- lift (getitem_int message 2) ;;
      update_offer m2 ;;;
      print_active_offers
  | FundingOfferSnapshot =>
      m2 <- lift (getitem_int message 2) ;;
      items <- lift (py_iter m2) ;;
      for_each update_offer items ;;;
      print_active_offers
  | PublicFundingTicker =>
      update_public_ticker message ;;;
      make_offer_decision clock
  | Unrecognized => ret tt
  end.

(** Every effect of the handler [m] satisfies [p]. *)
Definition emits_only {A} (p : effect -> bool) (m : M A) : Prop :=
  forall w, forallb p (effects_of (m w)) = true.

(** The handler [m] takes the globals to globals related by [R]. *)
Definition keeps {A} (R : world -> world -> Prop) (m : M A) : Prop :=
  forall w, R w (world_of (m w)).

Definition is_offer_command (c : command) : bool := is_cancel c || is_submit c.

(** The cancel and submit commands among the effects. *)
Definition offer_commands (o : list effect) : list command :=
  filter is_offer_command (sent o).

Definition not_offer_command (e : effect) : bool :=
  match e with
  | ESend c => negb (is_offer_command c)
  | _ => true
  end.

Definition same_ledger (w w' : world) : Prop :=
  active_offers w' = active_offers w.

Definition same_market (w w' : world) : Prop :=
  funding_available_usd w' = funding_available_usd w /\
  last_bid_rate w' = last_bid_rate w /\
  last_bid_period w' = last_bid_period w.

(** What a record asks of the ledger: the last two lines of
    [update_offer], once its fields are read. *)
Inductive ledger_op : Type :=
| OpSet (k : key) (o : offer)
| OpDel (k : key).

Definition record_op (message : json) : res ledger_op :=
  id <~ getitem_int message 0 ;;
  t <~ getitem_int message 3 ;;
  a <~ getitem_int message 4 ;;
  r <~ getitem_int message 14 ;;
  status <~ getitem_int message 10 ;;
  k <~ py_hash id ;;
  Ok (if negb (py_eq status (KStr "ACTIVE"))
      then OpDel k
      else OpSet k {| time := t; amount := a; rate := r |}).

Definition apply_op (op : ledger_op) (offers : ledger) : ledger :=
  match op with
  | OpSet k o => ledger_set k o offers
  | OpDel k => if ledger_mem k offers then ledger_del k offers else offers
  end.

Definition op_key (op : ledger_op) : key :=
  match op with
  | OpSet k _ => k
  | OpDel k => k
  end.

(** The variants on which [dispatch] runs the decision engine. *)
Definition is_trigger (ev : event) : bool :=
  match ev with
  | HeartBeat c => py_eq c (KNum 0)
  | PublicFundingTicker => true
  | _ => false
  end.

(** The variants whose handler writes to the ledger. *)
Definition is_offer_event (ev : event) : bool :=
  match ev with
  | FundingOfferUpdate | FundingOfferSnapshot => true
  | _ => false
  end.

(** The values of a ["platform"] field on which [is_connected] does not
    raise. *)
Definition platform_ok (p : json) : bool :=
  match p with
  | JDict _ => true
  | JList items => negb (existsb (fun x => py_eq x (KStr "status")) items)
  | JStr s => negb (is_substring "status" s)
  | JNull | JBool _ | JNum _ => false
  end.

(** The messages on which no predicate of the chain raises. *)
Definition well_shaped (message : json) : bool :=
  match message with
  | JDict fields =>
      match lookup_field "event" fields with
      | None => false
      | Some ev =>
          (if py_eq ev (KStr "info")
           then match lookup_field "platform" fields with
                | None => true
                | Some p => platform_ok p
                end
           else true)
          &&
          (if py_eq ev (KStr "auth")
           then match lookup_field "status" fields with
                | None => false
                | Some _ => true
                end
           else true)
      end
  | JList items =>
      match items with
      | c :: t :: _ =>
          negb (negb (py_eq c (KNum 0)) &&
                match t with JList [] => true | _ => false end)
      | _ => false
      end
  | JNull | JBool _ | JNum _ | JStr _ => true
  end.

(** The private heart beat [[0, "hb"]]. *)
Definition private_heart_beat : json := JList [JNum 0; JStr "hb"].

(** The operations of the records of a snapshot that [update_offer]
    applies: those before the first record on which it raises. *)
Fixpoint snapshot_ops (records : list json) : list ledger_op :=
  match records with
  | [] => []
  | r :: rest =>
      match record_op r with
      | Ok op => op :: snapshot_ops rest
      | Raise _ => []
      end
  end.

(** How the loop over the records ends. *)
Fixpoint snapshot_result (records : list json) : res unit :=
  match records with
  | [] => Ok tt
  | r :: rest =>
      match record_op r with
      | Ok _ => snapshot_result rest
      | Raise x => Raise x
      end
  end.

Definition apply_ops (ops : list ledger_op) (offers : ledger) : ledger :=
  fold_left (fun l op => apply_op op l) ops offers.

(** What an operation on key [k] leaves at [k]. *)
Definition op_value (op : ledger_op) : option offer :=
  match op with
  | OpSet _ o => Some o
  | OpDel _ => None
  end.

(** What is stored at [k] after [ops], when [init] was stored before. *)
Fixpoint last_write (k : key) (ops : list ledger_op) (init : option offer)
  : option offer :=
  match ops with
  | [] => init
  | op :: rest =>
      last_write k rest (if key_eq (op_key op) k then op_value op else init)
  end.

(** Two ledgers are equal as dicts: they hold the same offer at every key. *)
Definition ledger_equal (a b : ledger) : Prop :=
  forall k, ledger_get k a = ledger_get k b.

(** A snapshot message for the records [records]. *)
Definition snapshot_message (records : list json) : json :=
  JList [JNum 0; JStr "fos"; JList records].


(** ** The start of the process *)

(** The result is not the exit of the process. *)
Definition safe {A} (r : res A) : Prop := r <> Raise SystemExit.

(** The handler never exits the process. *)
Definition no_exit {A} (m : M A) : Prop := forall w, safe (result_of (m w)).

(** Not an authentication or subscription request. *)
Definition not_handshake (e : effect) : bool :=
  match e with
  | ESend (Auth _ _ _) | ESend (Subscribe _) => false
  | _ => true
  end.

Definition not_usage (e : effect) : bool :=
  match e with
  | EPrint LogUsage => false
  | _ => true
  end.

Definition not_handshake_nor_usage (e : effect) : bool :=
  not_handshake e && not_usage e.

(** The platform information message that opens a session. *)
Definition info_message : json :=
  JDict [("event"%string, JStr "info"); ("version"%string, num 2);
         ("platform"%string, JDict [("status"%string, num 1)])].

(** A process started without a configuration file argument. *)
Definition env_no_argument : env :=
  {| argv := ["funding_bot.py"%string];
     read_config := fun _ => Raise OSError |}.

(** The usage error is reported and the process exits with no connection
    attempted. *)
Definition usage_error_before_connecting (r : world * list effect * status) : Prop :=
  snd r = Exited /\ In (EPrint LogUsage) (snd (fst r)) /\
  ~ In EConnect (snd (fst r)).

(** How a run that started without the configuration file argument can
    end: with the usage error as its last effect, after effects that are
    neither handshake requests nor the usage error, or without exiting
    and with no such effect at all. *)
Definition usage_exit {A} (r : world * list effect * res A) : Prop :=
  (result_of r = Raise SystemExit /\
   exists pre, effects_of r = pre ++ [EPrint LogUsage] /\
               forallb not_handshake_nor_usage pre = true)
  \/
  (safe (result_of r) /\ forallb not_handshake_nor_usage (effects_of r) = true).

(** A session whose first frame is the platform information message. *)
Definition info_session : session :=
  Established [{| frame_clock := 1000; frame_payload := Some info_message |}] true.

(** The record reports, for the offer [id], a status other than
    ["ACTIVE"]. *)
Definition reports_inactive (id : key) (record : json) : Prop :=
  exists id_v k st,
    getitem_int record 0 = Ok id_v /\ py_hash id_v = Ok k /\
    key_eq k id = true /\
    getitem_int record 10 = Ok st /\ py_eq st (KStr "ACTIVE") = false.

(** The entry of [offers] at [id], with the key object that the dict
    holds. *)
Fixpoint ledger_find (id : key) (offers : ledger) : option (key * offer) :=
  match offers with
  | [] => None
  | (k, o) :: rest => if key_eq k id then Some (k, o) else ledger_find id rest
  end.

(** What [op] makes of the entry [cur] at [k]: a write keeps the key
    object of an entry that is there. *)
Definition op_entry (k : key) (cur : option (key * offer)) (op : ledger_op)
  : option (key * offer) :=
  if key_eq (op_key op) k then
    match op with
    | OpSet id o => Some (match cur with Some (k0, _) => k0 | None => id end, o)
    | OpDel _ => None
    end
  else cur.

Definition ops_entry (k : key) (ops : list ledger_op) (init : option (key * offer))
  : option (key * offer) :=
  fold_left (op_entry k) ops init.

(** Two ledgers hold the same entries, whatever their order. *)
Definition same_entries (a b : ledger) : Prop :=
  forall entry, In entry a <-> In entry b.

(** * Further properties: definitions *)

(** The entries whose age the cancellation loop computes: those before
    the first one whose stored time cannot be subtracted from a float. *)
Fixpoint visited (offers : ledger) : ledger :=
  match offers with
  | [] => []
  | entry :: rest =>
      if convertible (time (snd entry)) then entry :: visited rest else []
  end.

(** The offer of key [id] is in the ledger, it was created at a time
    that is a number within the range of the doubles, and its age at
    [clock] exceeds 120 seconds. *)
Definition too_old (clock : Q) (w : world) (id : key) : Prop :=
  exists o created,
    In (id, o) (active_offers w) /\ py_float (time o) = Ok created /\
    exceeds_120 (age_seconds clock created) = true.

(** The balance of [w] is a number, at least [min_offer_amount]. *)
Definition can_lend (w : world) : Prop :=
  exists b, py_number (funding_available_usd w) = Ok b /\ min_offer_amount <= b.

(** Not a frame written to the socket. *)
Definition not_send (e : effect) : bool :=
  match e with
  | ESend _ => false
  | _ => true
  end.

Definition same_balance (w w' : world) : Prop :=
  funding_available_usd w' = funding_available_usd w.

Definition same_bid (w w' : world) : Prop :=
  last_bid_rate w' = last_bid_rate w /\ last_bid_period w' = last_bid_period w.

(** A wallet update frame [[c, "wu", fields, ..]]. *)
Definition wallet_message (c : json) (fields rest : list json) : json :=
  JList (c :: JStr "wu" :: JList fields :: rest).

(** A ticker frame [[c, payload, ..]]. *)
Definition ticker_message (c : json) (payload rest : list json) : json :=
  JList (c :: JList payload :: rest).

(** The credentials that [login] reads: the ["key"] and ["secret"] fields
    of the configuration file named by [sys.argv[1]]. *)
Definition credentials (e : env) : res (json * json) :=
  params <~ read_config e (nth 1 (argv e) EmptyString) ;;
  api_key <~ getitem_str params "key" ;;
  api_secret <~ getitem_str params "secret" ;;
  Ok (api_key, api_secret).

(** The nonce of a login at the clock reading [clock]: the reading times
    a million, rounded to the nearest double, then truncated. *)
Definition nonce_at (clock : Q) : res Z :=
  py_int (float_mul (float_of_Q clock) (float_of_Q 1000000)).

(** The three frames of the handshake, in the order they are sent. *)
Definition handshake (api_key : json) (nonce : Z) (secret : string) : list command :=
  [Auth api_key nonce secret; Subscribe "trades"; Subscribe "ticker"].

(** The result raises nothing but the errors of a subscript or of a
    membership test. *)
Definition lookup_errors_only {A} (r : res A) : Prop :=
  match r with
  | Ok _ => True
  | Raise x => x = KeyError \/ x = IndexError \/ x = TypeError
  end.

Definition is_connect (e : effect) : bool :=
  match e with
  | EConnect => true
  | _ => false
  end.

Definition not_connect (e : effect) : bool := negb (is_connect e).

(** The number of connection attempts among the effects. *)
Definition connects (o : list effect) : nat := List.length (filter is_connect o).

(** A frame that [json.loads] rejects. *)
Definition bad_frame (clock : Q) : frame :=
  {| frame_clock := clock; frame_payload := None |}.


(** * Properties *)

(** ** The examples of the specification *)

Example classify_private_hb :
  classify (JList [num 0; JStr "hb"]) = Ok (HeartBeat (num 0)).
Proof. reflexivity. Qed.

Example classify_public_hb :
  classify (JList [num 5; JStr "hb"]) = Ok (HeartBeat (num 5)).
Proof. reflexivity. Qed.

Example classify_ticker :
  classify (JList [num 5; JList [JNum (3#10000); JNum (2#10000); num 30]])
  = Ok PublicFundingTicker.
Proof. reflexivity. Qed.

Example classify_empty_dict : classify (JDict []) = Raise KeyError.
Proof. reflexivity. Qed.

Example classify_empty_list : classify (JList []) = Raise IndexError.
Proof. reflexivity. Qed.

Example snapshot_then_executed :
  let w1 := world_of (dispatch env0 0
              (JList [num 0; JStr "fos"; JList [offer_record 1 1000 10 "ACTIVE" (3#10000)]])
              initial_world) in
  let w2 := world_of (dispatch env0 0
              (JList [num 0; JStr "fou"; offer_record 1 1000 10 "EXECUTED" (3#10000)])
              w1) in
  active_offers w1
  = [(KNum 1, {| time := num 1000; amount := num 10; rate := JNum (3#10000) |})]
  /\ active_offers w2 = [].
Proof. split; reflexivity. Qed.

(** ** Key equality is an equivalence *)

Lemma key_eq_refl (a : key) : key_eq a a = true.
Proof.
  destruct a; unfold key_eq; simpl;
    auto using Qeq_bool_refl, String.eqb_refl.
Qed.

Lemma key_eq_sym (a b : key) : key_eq a b = key_eq b a.
Proof.
  destruct a, b; unfold key_eq; simpl;
    auto using Qeq_bool_comm, String.eqb_sym.
Qed.

Lemma key_eq_trans (a b c : key) :
  key_eq a b = true -> key_eq b c = true -> key_eq a c = true.
Proof.
  destruct a, b, c; unfold key_eq; simpl; try discriminate; auto;
    try (apply Qeq_bool_trans);
    rewrite !String.eqb_eq; congruence.
Qed.

Lemma key_eq_congr (a b c : key) :
  key_eq a b = true -> key_eq a c = key_eq b c.
Proof.
  intros Hab.
  destruct (key_eq b c) eqn:Hbc.
  - eapply key_eq_trans; eauto.
  - destruct (key_eq a c) eqn:Hac; auto.
    rewrite key_eq_sym in Hab.
    rewrite (key_eq_trans _ _ _ Hab Hac) in Hbc. discriminate.
Qed.

(** ** The ledger as a map *)

Section LedgerFacts.

Variables (id : key) (o : offer).

Lemma ledger_get_set_eq (k : key) (offers : ledger) :
  key_eq id k = true ->
  ledger_get k (ledger_set id o offers) = Some o.
Proof.
  intros Hk.
  induction offers as [|[k' o'] rest IH]; simpl.
  - now rewrite Hk.
  - destruct (key_eq k' id) eqn:E; simpl.
    + now rewrite (key_eq_congr _ _ k E), Hk.
    + rewrite key_eq_sym in Hk.
      assert (key_eq k' k = false) as ->; auto.
      rewrite (key_eq_sym k' k), (key_eq_congr _ _ k' Hk).
      now rewrite key_eq_sym.
Qed.

Lemma ledger_get_set_same (offers : ledger) :
  ledger_get id (ledger_set id o offers) = Some o.
Proof. apply ledger_get_set_eq, key_eq_refl. Qed.

Lemma ledger_get_set_other (k : key) (offers : ledger) :
  key_eq id k = false ->
  ledger_get k (ledger_set id o offers) = ledger_get k offers.
Proof.
  intros Hk.
  induction offers as [|[k' o'] rest IH]; simpl.
  - now rewrite Hk.
  - destruct (key_eq k' id) eqn:E; simpl.
    + now rewrite (key_eq_congr _ _ k E), Hk.
    + now rewrite IH.
Qed.

Lemma ledger_get_del_eq (k : key) (offers : ledger) :
  key_eq id k = true ->
  ledger_get k (ledger_del id offers) = None.
Proof.
  intros Hk. unfold ledger_del.
  induction offers as [|[k' o'] rest IH]; simpl; auto.
  destruct (key_eq k' id) eqn:E; simpl; auto.
  assert (key_eq k' k = false) as ->; auto.
  rewrite key_eq_sym in Hk.
  rewrite (key_eq_sym k' k), (key_eq_congr _ _ k' Hk).
  now rewrite key_eq_sym.
Qed.

Lemma ledger_get_del_same (offers : ledger) :
  ledger_get id (ledger_del id offers) = None.
Proof. apply ledger_get_del_eq, key_eq_refl. Qed.

Lemma ledger_get_del_other (k : key) (offers : ledger) :
  key_eq id k = false ->
  ledger_get k (ledger_del id offers) = ledger_get k offers.
Proof.
  intros Hk. unfold ledger_del.
  induction offers as [|[k' o'] rest IH]; simpl; auto.
  destruct (key_eq k' id) eqn:E; simpl.
  - now rewrite (key_eq_congr _ _ k E), Hk.
  - now rewrite IH.
Qed.

Lemma ledger_mem_get (offers : ledger) :
  ledger_mem id offers = true <-> ledger_get id offers <> None.
Proof.
  unfold ledger_mem.
  induction offers as [|[k' o'] rest IH]; simpl.
  - split; [discriminate | congruence].
  - destruct (key_eq k' id); simpl; auto.
    split; [discriminate | reflexivity].
Qed.

Lemma ledger_del_absent (offers : ledger) :
  ledger_mem id offers = false -> ledger_del id offers = offers.
Proof.
  unfold ledger_mem, ledger_del.
  induction offers as [|[k' o'] rest IH]; simpl; auto.
  destruct (key_eq k' id); simpl; [discriminate|].
  intros H. now rewrite IH.
Qed.

End LedgerFacts.

Lemma ledger_mem_congr (a b : key) (offers : ledger) :
  key_eq a b = true -> ledger_mem a offers = ledger_mem b offers.
Proof.
  intros H. unfold ledger_mem.
  induction offers as [|[k o] rest IH]; simpl; auto.
  rewrite IH. f_equal.
  rewrite (key_eq_sym k a), (key_eq_sym k b). now apply key_eq_congr.
Qed.

Lemma ledger_mem_set (id k : key) (o : offer) (offers : ledger) :
  ledger_mem k (ledger_set id o offers)
  = key_eq id k || ledger_mem k offers.
Proof.
  unfold ledger_mem.
  induction offers as [|[k' o'] rest IH]; simpl.
  - now rewrite orb_false_r.
  - destruct (key_eq k' id) eqn:E; simpl.
    + rewrite <- (key_eq_congr _ _ k E).
      now destruct (key_eq k' k).
    + rewrite IH. destruct (key_eq k' k), (key_eq id k); reflexivity.
Qed.

Lemma ledger_mem_del (id k : key) (offers : ledger) :
  ledger_mem k (ledger_del id offers)
  = negb (key_eq id k) && ledger_mem k offers.
Proof.
  unfold ledger_mem, ledger_del.
  induction offers as [|[k' o'] rest IH]; simpl.
  - now rewrite andb_false_r.
  - destruct (key_eq k' id) eqn:E; simpl.
    + rewrite IH, <- (key_eq_congr _ _ k E).
      now destruct (key_eq k' k).
    + rewrite IH.
      destruct (key_eq k' k) eqn:E'; simpl; auto.
      rewrite (key_eq_sym id k), <- (key_eq_congr _ _ id E'), E.
      reflexivity.
Qed.

Lemma ledger_wf_set (id : key) (o : offer) (offers : ledger) :
  ledger_wf offers = true -> ledger_wf (ledger_set id o offers) = true.
Proof.
  induction offers as [|[k' o'] rest IH]; simpl; auto.
  intros H. apply andb_true_iff in H as [Hm Hw].
  destruct (key_eq k' id) eqn:E; simpl.
  - now rewrite Hm, Hw.
  - rewrite ledger_mem_set, IH by assumption.
    rewrite key_eq_sym, E. simpl. now rewrite Hm.
Qed.

Lemma ledger_wf_del (id : key) (offers : ledger) :
  ledger_wf offers = true -> ledger_wf (ledger_del id offers) = true.
Proof.
  induction offers as [|[k' o'] rest IH]; simpl; auto.
  intros H. apply andb_true_iff in H as [Hm Hw].
  destruct (key_eq k' id) eqn:E; simpl; auto.
  fold (ledger_del id rest).
  rewrite ledger_mem_del, IH by assumption.
  apply negb_true_iff in Hm. rewrite Hm. now rewrite andb_false_r.
Qed.

(** ** Floats *)

(** [float_of_Q] rounds to the nearest double, ties to even:
    [0.1] is [0x1.999999999999ap-4], [0.001] is [0x1.0624dd2f1a9fcp-10],
    [2^53 + 1] is [2^53] and [2^53 + 3] is [2^53 + 4]. *)
Example float_of_Q_rounds :
  float_of_Q (1 # 10) = S754_finite false 7205759403792794 (-56) /\
  float_of_Q (1 # 1000) = S754_finite false 4611686018427388 (-62) /\
  float_of_Q (inject_Z (2 ^ 53 + 1)) = float_of_Q (inject_Z (2 ^ 53)) /\
  float_of_Q (inject_Z (2 ^ 53 + 3)) = float_of_Q (inject_Z (2 ^ 53 + 4)).
Proof. repeat split; reflexivity. Qed.

(** The largest double is [2^1024 - 2^971]; an [int] from
    [2^1024 - 2^970] on is beyond the range of the doubles, and
    subtracting it from a float raises [OverflowError]. *)
Example py_float_range :
  py_float (num (2 ^ 1024 - 2 ^ 970 - 1))
  = Ok (S754_finite false 9007199254740991 971) /\
  py_float (num (2 ^ 1024 - 2 ^ 970)) = Raise OverflowError /\
  py_float (num (- 2 ^ 1024)) = Raise OverflowError /\
  py_float (JStr "0") = Raise TypeError.
Proof. repeat split; reflexivity. Qed.

(** The other side of the rounding: at the clock reading
    [0x1.15d694b5e413ep+7] an offer created at [0x1.279c69cd05db5p+14] ms
    is not older than 120 s, and the age that the doubles give is above
    120: the offer is cancelled. *)
Example rounded_age_above_exact_age :
  let clock := 2443890710749343 # 17592186044416 in
  let created := 5200443522178485 # 274877906944 in
  (clock * 1000 - created) / 1000 <= 120 /\
  stale clock (KNum 1, {| time := JNum created; amount := num 50;
                          rate := JNum (3#10000) |}) = true.
Proof. split; [discriminate | reflexivity]. Qed.

(** ** Running handlers *)

Lemma bind_raise {A B} (m : M A) (f : A -> M B) w w1 o1 x :
  m w = (w1, o1, Raise x) -> bind m f w = (w1, o1, Raise x).
Proof. unfold bind. now intros ->. Qed.

(** ** The cancellation pass *)

Lemma cancel_if_old_run clock entry w :
  cancel_if_old (now_ms clock) entry w
  = (w, cancel_effects clock entry,
     match py_float (time (snd entry)) with
     | Ok _ => Ok tt
     | Raise x => Raise x
     end).
Proof.
  destruct entry as [id o].
  unfold cancel_if_old, cancel_effects, py_sub, bind, lift. cbn [fst snd].
  destruct (py_float (time o)) as [created|x]; [|reflexivity].
  change (float_mul (float_sub (now_ms clock) created) (float_of_Q (1 # 1000)))
    with (age_seconds clock created).
  change (float_lt (float_of_Q max_offer_pending_time) (age_seconds clock created))
    with (exceeds_120 (age_seconds clock created)).
  destruct (exceeds_120 (age_seconds clock created)); reflexivity.
Qed.

Lemma cancel_loop_run clock offers w :
  for_each (cancel_if_old (now_ms clock)) offers w
  = (w, flat_map (cancel_effects clock) (visited offers), first_failure offers).
Proof.
  induction offers as [|entry rest IH]; [reflexivity|].
  cbn [for_each visited first_failure]. unfold bind, convertible.
  rewrite cancel_if_old_run.
  destruct (py_float (time (snd entry))) as [created|x] eqn:E.
  - rewrite IH. reflexivity.
  - unfold cancel_effects. rewrite E. reflexivity.
Qed.

Lemma visited_all offers :
  times_convertible offers = true -> visited offers = offers.
Proof.
  unfold times_convertible.
  induction offers as [|entry rest IH]; cbn [forallb visited]; auto.
  intros H. apply andb_true_iff in H as [Hn Hr]. now rewrite Hn, IH.
Qed.

Lemma first_failure_none offers :
  times_convertible offers = true -> first_failure offers = Ok tt.
Proof.
  unfold times_convertible, convertible.
  induction offers as [|entry rest IH]; cbn [forallb first_failure]; auto.
  intros H. apply andb_true_iff in H as [Hn Hr].
  destruct (py_float (time (snd entry))); [auto|discriminate].
Qed.

Lemma first_failure_some offers :
  times_convertible offers = false -> exists x, first_failure offers = Raise x.
Proof.
  unfold times_convertible, convertible.
  induction offers as [|entry rest IH]; cbn [forallb first_failure]; [discriminate|].
  intros H. destruct (py_float (time (snd entry))) as [t|x]; [auto|eauto].
Qed.

Lemma visited_In entry offers :
  In entry (visited offers) -> In entry offers.
Proof.
  induction offers as [|e rest IH]; cbn [visited]; auto.
  destruct (convertible (time (snd e))); [|contradiction].
  intros [->|H]; [left|right]; auto.
Qed.

(** ** A run of the decision engine *)

Lemma make_offer_decision_run clock w :
  make_offer_decision clock w
  = (w,
     flat_map (cancel_effects clock) (visited (active_offers w))
     ++ match first_failure (active_offers w) with
        | Ok _ => submit_effects w
        | Raise _ => []
        end,
     match first_failure (active_offers w) with
     | Ok _ => match py_number (funding_available_usd w) with
               | Ok _ => Ok tt
               | Raise x => Raise x
               end
     | Raise x => Raise x
     end).
Proof.
  unfold make_offer_decision, submit_effects.
  change (float_mul (timestamp clock) (float_of_Q 1000)) with (now_ms clock).
  unfold bind at 1. unfold get at 1.
  unfold bind at 1. rewrite cancel_loop_run.
  destruct (first_failure (active_offers w)) as [[]|x];
    [|now rewrite app_nil_r].
  unfold bind, get, lift, submit_offer, send, print, emit, ret.
  destruct (py_number (funding_available_usd w)); cbn [app];
    rewrite ?app_nil_r; auto.
  destruct (Qle_bool _ _); cbn [app]; now rewrite ?app_nil_r.
Qed.

(** ** The decision engine leaves the globals alone *)

Lemma make_offer_decision_world clock w :
  world_of (make_offer_decision clock w) = w.
Proof. now rewrite make_offer_decision_run. Qed.

Lemma make_offer_decision_complete clock w :
  times_convertible (active_offers w) = true ->
  make_offer_decision clock w
  = (w,
     flat_map (cancel_effects clock) (active_offers w) ++ submit_effects w,
     match py_number (funding_available_usd w) with
     | Ok _ => Ok tt
     | Raise x => Raise x
     end).
Proof.
  intros Ht. rewrite make_offer_decision_run.
  now rewrite (visited_all _ Ht), (first_failure_none _ Ht).
Qed.

(** ** Counting the commands sent *)

Lemma sent_app (a b : list effect) : sent (a ++ b) = sent a ++ sent b.
Proof. apply flat_map_app. Qed.

Lemma cancels_for_app id (a b : list command) :
  cancels_for id (a ++ b) = (cancels_for id a + cancels_for id b)%nat.
Proof. unfold cancels_for. now rewrite filter_app, length_app. Qed.

Lemma sent_cancel_effects clock offers :
  sent (flat_map (cancel_effects clock) offers)
  = map (fun entry => CancelOffer (fst entry)) (filter (stale clock) offers).
Proof.
  induction offers as [|[k o] rest IH]; [reflexivity|].
  cbn [flat_map filter]. rewrite sent_app, IH.
  unfold cancel_effects, stale; cbn [fst snd].
  destruct (py_float (time o)) as [created|]; auto.
  destruct (exceeds_120 (age_seconds clock created)); auto.
Qed.

Lemma sent_cancel_effects_is_cancel clock offers :
  forallb is_cancel (sent (flat_map (cancel_effects clock) offers)) = true.
Proof.
  rewrite sent_cancel_effects.
  induction (filter (stale clock) offers) as [|entry rest IH]; auto.
Qed.

Lemma cancels_for_absent clock id offers :
  ledger_mem id offers = false ->
  cancels_for id (sent (flat_map (cancel_effects clock) offers)) = 0%nat.
Proof.
  rewrite sent_cancel_effects. unfold ledger_mem.
  induction offers as [|[k o] rest IH]; cbn [existsb filter fst]; auto.
  intros H. apply orb_false_iff in H as [Hk Hr].
  destruct (stale clock (k, o)); auto.
  cbn [map fst]. unfold cancels_for in *. cbn [filter]. rewrite Hk. auto.
Qed.

Lemma ledger_mem_In id o offers :
  In (id, o) offers -> ledger_mem id offers = true.
Proof.
  unfold ledger_mem. intros H. apply existsb_exists.
  exists (id, o). split; auto. apply key_eq_refl.
Qed.

Lemma ledger_mem_visited id offers :
  ledger_mem id offers = false -> ledger_mem id (visited offers) = false.
Proof.
  intros H. destruct (ledger_mem id (visited offers)) eqn:E; auto.
  unfold ledger_mem in E. apply existsb_exists in E as ([k o] & Hin & Hk).
  apply visited_In in Hin.
  assert (ledger_mem id offers = true) as Hm.
  { unfold ledger_mem. apply existsb_exists. eauto. }
  congruence.
Qed.

Lemma ledger_wf_visited offers :
  ledger_wf offers = true -> ledger_wf (visited offers) = true.
Proof.
  induction offers as [|[k o] rest IH]; cbn [ledger_wf visited]; auto.
  intros H. apply andb_true_iff in H as [Hm Hw]. apply negb_true_iff in Hm.
  cbn [snd]. destruct (convertible (time o)); auto.
  cbn [ledger_wf]. now rewrite (ledger_mem_visited _ _ Hm), IH.
Qed.

Lemma cancels_for_entry clock id o created offers :
  ledger_wf offers = true ->
  In (id, o) offers ->
  py_float (time o) = Ok created ->
  cancels_for id (sent (flat_map (cancel_effects clock) offers))
  = if exceeds_120 (age_seconds clock created) then 1%nat else 0%nat.
Proof.
  intros Hwf Hin Ht.
  induction offers as [|[k o'] rest IH]; cbn [In flat_map ledger_wf] in *;
    [contradiction|].
  apply andb_true_iff in Hwf as [Hm Hw]. apply negb_true_iff in Hm.
  rewrite sent_app, cancels_for_app.
  destruct Hin as [E|Hin].
  - inversion E; subst k o'. rewrite (cancels_for_absent clock _ _ Hm), Nat.add_0_r.
    unfold cancel_effects; cbn [fst snd]. rewrite Ht.
    destruct (exceeds_120 (age_seconds clock created)); auto.
    unfold cancels_for, sent; cbn [flat_map app filter]. now rewrite key_eq_refl.
  - rewrite (IH Hw Hin).
    assert (key_eq k id = false) as Hk.
    { destruct (key_eq k id) eqn:E; auto.
      rewrite (ledger_mem_congr _ _ rest E), (ledger_mem_In _ _ _ Hin) in Hm.
      discriminate. }
    unfold cancel_effects; cbn [fst snd].
    destruct (py_float (time o')) as [t'|]; auto.
    destruct (exceeds_120 (age_seconds clock t')); auto.
    unfold cancels_for, sent; cbn [flat_map app filter]. now rewrite Hk.
Qed.

(** An entry that the cancellation pass does not reach is named by no
    cancel command. *)
Lemma cancels_for_unvisited clock id o offers :
  ledger_wf offers = true ->
  In (id, o) offers ->
  ~ In (id, o) (visited offers) ->
  cancels_for id (sent (flat_map (cancel_effects clock) (visited offers))) = 0%nat.
Proof.
  intros Hwf Hin Hout.
  induction offers as [|[k o'] rest IH]; cbn [In visited ledger_wf snd] in *;
    [contradiction|].
  apply andb_true_iff in Hwf as [Hm Hw]. apply negb_true_iff in Hm.
  destruct (convertible (time o')) eqn:Hc; [|reflexivity].
  cbn [flat_map]. rewrite sent_app, cancels_for_app.
  destruct Hin as [E|Hin].
  - exfalso. apply Hout. left. exact E.
  - rewrite IH; auto; [|intros H; apply Hout; right; exact H].
    assert (key_eq k id = false) as Hk.
    { destruct (key_eq k id) eqn:E; auto.
      rewrite (ledger_mem_congr _ _ rest E), (ledger_mem_In _ _ _ Hin) in Hm.
      discriminate. }
    unfold cancel_effects; cbn [fst snd].
    destruct (py_float (time o')) as [t'|]; auto.
    destruct (exceeds_120 (age_seconds clock t')); auto.
    unfold cancels_for, sent; cbn [flat_map app filter]. now rewrite Hk.
Qed.

Lemma cancel_sent_for_entry clock id o created offers :
  In (id, o) offers ->
  py_float (time o) = Ok created ->
  exceeds_120 (age_seconds clock created) = true ->
  In (CancelOffer id) (sent (flat_map (cancel_effects clock) offers)).
Proof.
  intros Hin Ht Hs. rewrite sent_cancel_effects.
  apply (in_map (fun entry => CancelOffer (fst entry)) _ (id, o)).
  apply filter_In. split; auto.
  unfold stale; cbn [snd]. now rewrite Ht.
Qed.

Lemma cancels_for_In id cmds :
  In (CancelOffer id) cmds -> (1 <= cancels_for id cmds)%nat.
Proof.
  unfold cancels_for.
  induction cmds as [|c rest IH]; simpl; [contradiction|].
  intros [->|H].
  - rewrite key_eq_refl. simpl. lia.
  - specialize (IH H). destruct c; simpl; try lia.
    destruct (key_eq id0 id); simpl; lia.
Qed.

Lemma submits_of_cancels (cmds : list command) :
  forallb is_cancel cmds = true -> submits cmds = [].
Proof.
  unfold submits.
  induction cmds as [|c rest IH]; simpl; auto.
  intros H. apply andb_true_iff in H as [Hc Hr].
  destruct c; simpl in *; try discriminate; auto.
Qed.

Lemma cancels_for_submit_effects id w :
  cancels_for id (sent (submit_effects w)) = 0%nat.
Proof.
  unfold submit_effects.
  destruct (py_number (funding_available_usd w)); auto.
  destruct (Qle_bool _ _); auto.
Qed.

(** The cancel commands, for an entry that the pass reaches. *)
Lemma decision_cancels_for clock w id o created :
  ledger_wf (active_offers w) = true ->
  In (id, o) (visited (active_offers w)) ->
  py_float (time o) = Ok created ->
  cancels_for id (sent (effects_of (make_offer_decision clock w)))
  = if exceeds_120 (age_seconds clock created) then 1%nat else 0%nat.
Proof.
  intros Hwf Hin Ht. rewrite make_offer_decision_run.
  unfold effects_of; cbn [fst snd].
  rewrite sent_app, cancels_for_app.
  assert (cancels_for id
            (sent match first_failure (active_offers w) with
                  | Ok _ => submit_effects w
                  | Raise _ => []
                  end) = 0%nat) as ->.
  { destruct (first_failure (active_offers w));
      [apply cancels_for_submit_effects | reflexivity]. }
  rewrite Nat.add_0_r.
  apply cancels_for_entry with (o := o); auto using ledger_wf_visited.
Qed.

(** ** The decision engine *)

(** C1 (amended): on a run of the decision engine at the clock reading
    [clock], for every entry of the offer ledger (a dict: its ids are
    distinct).  When the cancellation pass reaches the entry (its stored
    creation time and those of the entries before it are numbers that
    convert to a double, [created] for this entry), a cancel command for
    the entry's id is sent if and only if the age, computed in double
    arithmetic as (now - created) * 0.001 with now = clock * 1000,
    strictly exceeds 120 seconds, and the command is then sent exactly
    once; an offer aged 121000 ms gets exactly one cancel command, an
    offer aged 119000 ms gets none.  When the pass does not reach the
    entry, no cancel command is sent for its id. *)
Theorem C1_cancel_iff_older_than_max_pending :
  forall (clock : Q) (w : world) (id : key) (o : offer),
    ledger_wf (active_offers w) = true ->
    In (id, o) (active_offers w) ->
    let out := sent (effects_of (make_offer_decision clock w)) in
    (forall created : float,
        In (id, o) (visited (active_offers w)) ->
        py_float (time o) = Ok created ->
        (In (CancelOffer id) out <-> exceeds_120 (age_seconds clock created) = true) /\
        cancels_for id out
          = (if exceeds_120 (age_seconds clock created) then 1 else 0)%nat /\
        (age_ms clock created = float_of_Q 121000 -> cancels_for id out = 1%nat) /\
        (age_ms clock created = float_of_Q 119000 -> cancels_for id out = 0%nat)) /\
    (~ In (id, o) (visited (active_offers w)) -> cancels_for id out = 0%nat).
Proof.
  intros clock w id o Hwf Hin out. split.
  - intros created Hv Ht.
    assert (Hcount : cancels_for id out
        = (if exceeds_120 (age_seconds clock created) then 1 else 0)%nat)
      by now apply decision_cancels_for with (o := o).
    split; [|split; [exact Hcount|split]].
    + split.
      * intros H. apply cancels_for_In in H. rewrite Hcount in H.
        destruct (exceeds_120 (age_seconds clock created)); auto. lia.
      * intros H. subst out. rewrite make_offer_decision_run.
        unfold effects_of; cbn [fst snd]. rewrite sent_app. apply in_or_app. left.
        now apply cancel_sent_for_entry with (o := o) (created := created).
    + intros E. rewrite Hcount. unfold age_seconds. rewrite E. reflexivity.
    + intros E. rewrite Hcount. unfold age_seconds. rewrite E. reflexivity.
  - intros Hout. subst out. rewrite make_offer_decision_run.
    unfold effects_of; cbn [fst snd].
    rewrite sent_app, cancels_for_app.
    rewrite (@cancels_for_unvisited clock id o _ Hwf Hin Hout).
    destruct (first_failure (active_offers w));
      [apply cancels_for_submit_effects | reflexivity].
Qed.

Lemma C1_witness :
  let out := sent (effects_of (make_offer_decision 1000 sample_world)) in
  cancels_for (KNum 1) out = 1%nat /\ cancels_for (KNum 2) out = 0%nat.
Proof.
  split.
  - pose proof (@C1_cancel_iff_older_than_max_pending 1000 sample_world
                  (KNum 1)
                  {| time := num 879000; amount := num 50; rate := JNum (3#10000) |}
                  eq_refl (or_introl eq_refl)) as [H _].
    destruct (H (float_of_Q 879000) (or_introl eq_refl) eq_refl)
      as (_ & _ & H121 & _).
    apply H121. reflexivity.
  - pose proof (@C1_cancel_iff_older_than_max_pending 1000 sample_world
                  (KNum 2)
                  {| time := num 881000; amount := num 50; rate := JNum (3#10000) |}
                  eq_refl (or_intror (or_introl eq_refl))) as [H _].
    destruct (H (float_of_Q 881000) (or_intror (or_introl eq_refl)) eq_refl)
      as (_ & _ & _ & H119).
    apply H119. reflexivity.
Defined.

(** C1 as stated fails twice over.  After a snapshot whose first record
    carries its creation time as a string, the ledger holds offer 2,
    created at 0 ms: at the clock reading 1000 s it is 1000 s old, and a
    run of the decision engine sends no cancel command for it (the pass
    raises [TypeError] on the first entry).  And at the clock reading
    [0x1.9558924209375p+30] an offer created at 1700144152509 ms is
    older than 120 s (by 63 ns), yet no cancel command is sent: the age
    that the doubles give is 120.0. *)
Lemma C1_counterexample :
  (let w := world_of (dispatch env0 1000 string_time_snapshot initial_world) in
   let out := sent (effects_of (make_offer_decision 1000 w)) in
   ledger_get (KNum 2) (active_offers w)
   = Some {| time := num 0; amount := num 50; rate := JNum (3#10000) |} /\
   120 < (1000 * 1000 - 0) / 1000 /\
   ~ In (CancelOffer (KNum 2)) out /\
   result_of (make_offer_decision 1000 w) = Raise TypeError) /\
  (let out := sent (effects_of (make_offer_decision boundary_clock boundary_world)) in
   120 < (boundary_clock * 1000 - 1700144152509) / 1000 /\
   ~ In (CancelOffer (KNum 1)) out /\
   age_seconds boundary_clock (float_of_Q 1700144152509) = float_of_Q 120).
Proof.
  split; cbv zeta.
  - split; [reflexivity|]. split; [reflexivity|]. split; [|reflexivity].
    vm_compute. intros [].
  - split; [reflexivity|]. split; [|reflexivity].
    vm_compute. intros [].
Qed.

(** C2: on a run of the decision engine whose cancellation pass
    completes, with the available balance the number [b]: exactly one
    submit command is sent if and only if [b >= min_offer_amount] (50),
    it offers [min_offer_amount] at [last_bid_rate] for
    [last_bid_period]; no submit command is sent when
    [b < min_offer_amount]; and the commands sent are cancel commands
    followed by the submit commands. *)
Theorem C2_submit_iff_balance_at_least_min :
  forall (clock : Q) (w : world) (b : Q),
    times_convertible (active_offers w) = true ->
    py_number (funding_available_usd w) = Ok b ->
    let out := sent (effects_of (make_offer_decision clock w)) in
    min_offer_amount == 50 /\
    (min_offer_amount <= b ->
     submits out
     = [NewOffer min_offer_amount (last_bid_rate w) (last_bid_period w)]) /\
    (b < min_offer_amount -> submits out = []) /\
    (List.length (submits out) = 1%nat <-> min_offer_amount <= b) /\
    (exists cs, forallb is_cancel cs = true /\ out = cs ++ submits out) /\
    result_of (make_offer_decision clock w) = Ok tt.
Proof.
  intros clock w b Hnum Hb out.
  assert (Hout : out = sent (flat_map (cancel_effects clock) (active_offers w))
                 ++ sent (submit_effects w)).
  { subst out. rewrite (make_offer_decision_complete clock w Hnum).
    unfold effects_of; cbn [fst snd]. apply sent_app. }
  assert (Hsub : submits out = sent (submit_effects w)).
  { rewrite Hout. unfold submits. rewrite filter_app.
    fold (submits (sent (flat_map (cancel_effects clock) (active_offers w)))).
    rewrite submits_of_cancels by apply sent_cancel_effects_is_cancel.
    unfold submit_effects. rewrite Hb.
    destruct (Qle_bool _ _); reflexivity. }
  assert (Hyes : min_offer_amount <= b ->
     sent (submit_effects w)
     = [NewOffer min_offer_amount (last_bid_rate w) (last_bid_period w)]).
  { intros H. apply Qle_bool_iff in H. unfold submit_effects.
    now rewrite Hb, H. }
  assert (Hno : b < min_offer_amount -> sent (submit_effects w) = []).
  { intros H. unfold submit_effects. rewrite Hb.
    destruct (Qle_bool _ _) eqn:E; auto.
    apply Qle_bool_iff in E. exfalso. now apply (Qlt_not_le _ _ H). }
  split; [reflexivity|].
  split; [now rewrite Hsub|].
  split; [now rewrite Hsub|].
  split; [|split].
  - rewrite Hsub. split.
    + intros Hlen. destruct (Qlt_le_dec b min_offer_amount) as [Hlt|Hle]; auto.
      rewrite (Hno Hlt) in Hlen. discriminate.
    + intros H. now rewrite (Hyes H).
  - exists (sent (flat_map (cancel_effects clock) (active_offers w))).
    split; [apply sent_cancel_effects_is_cancel|].
    now rewrite Hsub.
  - rewrite (make_offer_decision_complete clock w Hnum).
    unfold result_of; cbn [snd]. now rewrite Hb.
Qed.

Lemma C2_witness :
  let out := sent (effects_of (make_offer_decision 1000 sample_world)) in
  submits out = [NewOffer 50 (JNum (2#10000)) (num 30)] /\
  out = [CancelOffer (KNum 1); NewOffer 50 (JNum (2#10000)) (num 30)].
Proof.
  pose proof (@C2_submit_iff_balance_at_least_min 1000 sample_world
                (inject_Z 100) eq_refl eq_refl) as H.
  cbv zeta in H. destruct H as (_ & Hyes & _).
  split; [apply Hyes; discriminate | reflexivity].
Defined.

(** ** [dispatch] handles a message according to its variant *)

Lemma bind_lift {A B} (r : res A) (f : A -> M B) (w : world) :
  bind (lift r) f w
  = match r with
    | Ok a => f a w
    | Raise x => (w, [], Raise x)
    end.
Proof.
  unfold bind, lift. destruct r as [a|x]; auto.
  now destruct (f a w) as [[w2 o2] r2].
Qed.

Ltac dispatch_step :=
  rewrite bind_lift;
  match goal with
  | |- context [match ?r with Ok _ => _ | Raise _ => _ end] =>
      destruct r as [[|]|]; cbn [bind_res]; auto
  end.

Lemma dispatch_classify (e : env) (clock : Q) (message : json) (w : world) :
  dispatch e clock message w
  = match classify message with
    | Ok ev => handle e clock message ev w
    | Raise x => (w, [], Raise x)
    end.
Proof.
  unfold dispatch, classify, test.
  do 4 (dispatch_step; []).
  dispatch_step.
  - unfold ne_const. rewrite bind_lift.
    destruct (getitem_int message 0) as [c|]; cbn [bind_res handle]; auto.
  - do 4 dispatch_step.
Qed.

(** ** Effects and frames of composed handlers *)

Section Combinators.

Variable p : effect -> bool.
Variable R : world -> world -> Prop.
Hypothesis R_refl : forall w, R w w.
Hypothesis R_trans : forall a b c, R a b -> R b c -> R a c.

Lemma emits_only_bind {A B} (m : M A) (f : A -> M B) :
  emits_only p m -> (forall a, emits_only p (f a)) -> emits_only p (bind m f).
Proof.
  intros Hm Hf w. specialize (Hm w). unfold bind, effects_of in *.
  destruct (m w) as [[w1 o1] [a|x]]; simpl in *; auto.
  specialize (Hf a w1). unfold effects_of in Hf.
  destruct (f a w1) as [[w2 o2] r]; simpl in *.
  now rewrite forallb_app, Hm, Hf.
Qed.

Lemma emits_only_lift {A} (r : res A) : emits_only p (lift r).
Proof. intros w. reflexivity. Qed.

Lemma emits_only_ret {A} (a : A) : emits_only p (ret a).
Proof. intros w. reflexivity. Qed.

Lemma emits_only_get : emits_only p get.
Proof. intros w. reflexivity. Qed.

Lemma emits_only_put w' : emits_only p (put w').
Proof. intros w. reflexivity. Qed.

Lemma emits_only_emit e : p e = true -> emits_only p (emit e).
Proof. intros H w. unfold emit, effects_of; simpl. now rewrite H. Qed.

Lemma emits_only_for_each {A} (f : A -> M unit) (l : list A) :
  (forall a, emits_only p (f a)) -> emits_only p (for_each f l).
Proof.
  intros Hf. induction l as [|a rest IH]; simpl.
  - apply emits_only_ret.
  - apply emits_only_bind; auto.
Qed.

Lemma keeps_bind {A B} (m : M A) (f : A -> M B) :
  keeps R m -> (forall a, keeps R (f a)) -> keeps R (bind m f).
Proof.
  intros Hm Hf w. specialize (Hm w). unfold bind, world_of in *.
  destruct (m w) as [[w1 o1] [a|x]]; simpl in *; auto.
  specialize (Hf a w1). unfold world_of in Hf.
  destruct (f a w1) as [[w2 o2] r]; simpl in *. eauto.
Qed.

Lemma keeps_lift {A} (r : res A) : keeps R (lift r).
Proof. intros w. apply R_refl. Qed.

Lemma keeps_ret {A} (a : A) : keeps R (ret a).
Proof. intros w. apply R_refl. Qed.

Lemma keeps_get : keeps R get.
Proof. intros w. apply R_refl. Qed.

Lemma keeps_emit e : keeps R (emit e).
Proof. intros w. apply R_refl. Qed.

Lemma keeps_for_each {A} (f : A -> M unit) (l : list A) :
  (forall a, keeps R (f a)) -> keeps R (for_each f l).
Proof.
  intros Hf. induction l as [|a rest IH]; simpl.
  - apply keeps_ret.
  - apply keeps_bind; auto.
Qed.

End Combinators.

Lemma same_ledger_refl w : same_ledger w w.
Proof. reflexivity. Qed.

Lemma same_ledger_trans a b c : same_ledger a b -> same_ledger b c -> same_ledger a c.
Proof. unfold same_ledger. congruence. Qed.

Lemma same_market_refl w : same_market w w.
Proof. repeat split. Qed.

Lemma same_market_trans a b c : same_market a b -> same_market b c -> same_market a c.
Proof. unfold same_market. intuition congruence. Qed.

(** Solves [emits_only p m] and [keeps R m] for a handler [m] built from
    the primitives, by following its structure. *)
Create HintDb frame.

Ltac handler_frame :=
  repeat first
    [ solve [auto with frame]
    | apply emits_only_lift | apply emits_only_ret | apply emits_only_get
    | apply emits_only_put
    | apply emits_only_emit; reflexivity
    | apply emits_only_for_each; intros
    | apply emits_only_bind; [|intros]
    | apply keeps_lift; auto | apply keeps_ret; auto | apply keeps_get; auto
    | apply keeps_emit; auto
    | apply keeps_for_each; [solve [auto] | solve [auto] | intros]
    | apply keeps_bind; [solve [auto] | | intros]
    | match goal with
      | |- emits_only _ (if ?b then _ else _) => destruct b
      | |- keeps _ (if ?b then _ else _) => destruct b
      end ].

Lemma bind_get {B} (f : world -> M B) (w : world) : bind get f w = f w w.
Proof. unfold bind, get. now destruct (f w w) as [[w2 o2] r2]. Qed.

Lemma bind_put {B} (f : unit -> M B) (w w' : world) : bind (put w') f w = f tt w'.
Proof. unfold bind, put. now destruct (f tt w') as [[w2 o2] r2]. Qed.

Lemma bind_emit {B} (f : unit -> M B) (e : effect) (w : world) :
  bind (emit e) f w
  = (world_of (f tt w), e :: effects_of (f tt w), result_of (f tt w)).
Proof. unfold bind, emit. now destruct (f tt w) as [[w2 o2] r2]. Qed.

Lemma set_active_offers_same w : set_active_offers (active_offers w) w = w.
Proof. now destruct w. Qed.

Ltac run_lift :=
  rewrite bind_lift;
  match goal with
  | |- context [match ?r with Ok _ => _ | Raise _ => _ end] =>
      destruct r; cbn [bind_res]; try solve [auto | repeat split]
  end.

(** [update_offer] reads the record, then applies its operation to the
    ledger; when it raises, the globals are as before. *)
Lemma update_offer_run (message : json) (w : world) :
  update_offer message w
  = match record_op message with
    | Ok op => (set_active_offers (apply_op op (active_offers w)) w, [], Ok tt)
    | Raise x => (w, [], Raise x)
    end.
Proof.
  unfold update_offer, record_op.
  do 6 (run_lift; []).
  rewrite bind_get.
  destruct (negb (py_eq _ _)); cbn [apply_op]; auto.
  destruct (ledger_mem _ _); auto.
  unfold ret. now rewrite set_active_offers_same.
Qed.

Lemma update_offer_silent p message : emits_only p (update_offer message).
Proof.
  intros w. rewrite update_offer_run.
  destruct (record_op message); reflexivity.
Qed.

Lemma update_offer_same_market message : keeps same_market (update_offer message).
Proof.
  intros w. rewrite update_offer_run.
  destruct (record_op message); repeat split.
Qed.

Lemma make_offer_decision_keeps R clock :
  (forall w, R w w) -> keeps R (make_offer_decision clock).
Proof. intros HR w. now rewrite make_offer_decision_world. Qed.

Lemma login_no_offer_command e clock : emits_only not_offer_command (login e clock).
Proof. unfold login, print, send, raise. handler_frame. Qed.

Lemma login_keeps R e clock :
  (forall w, R w w) -> (forall a b c, R a b -> R b c -> R a c) ->
  keeps R (login e clock).
Proof. intros. unfold login, print, send, raise. handler_frame. Qed.

(** ** Which handlers send offer commands, which write the ledger *)

Lemma offer_commands_none (o : list effect) :
  forallb not_offer_command o = true -> offer_commands o = [].
Proof.
  unfold offer_commands.
  induction o as [|e rest IH]; simpl; auto.
  intros H. apply andb_true_iff in H as [He Hr].
  rewrite filter_app, (IH Hr), app_nil_r.
  destruct e; simpl in *; auto.
  apply negb_true_iff in He. now rewrite He.
Qed.

Lemma update_funding_available_usd_same_ledger message :
  keeps same_ledger (update_funding_available_usd message).
Proof.
  intros w. unfold update_funding_available_usd.
  do 2 run_lift.
Qed.

Lemma update_public_ticker_same_ledger message :
  keeps same_ledger (update_public_ticker message).
Proof.
  intros w.
  unfold update_public_ticker, same_ledger, world_of, bind, lift, get, put,
    print, emit.
  destruct (getitem_int message 1) as [m1|]; [|reflexivity].
  destruct (getitem_int m1 1) as [r|]; [|reflexivity].
  destruct (getitem_int m1 2) as [p|]; [|reflexivity].
  destruct (py_mul_100 r); reflexivity.
Qed.

#[local] Hint Resolve login_no_offer_command update_offer_silent
  login_keeps make_offer_decision_keeps
  update_funding_available_usd_same_ledger
  update_public_ticker_same_ledger : frame.

Lemma handle_quiet e clock message ev :
  is_trigger ev = false ->
  emits_only not_offer_command (handle e clock message ev).
Proof.
  destruct ev; simpl; intros H; try discriminate;
    unfold print, subscribe_funding_trades, subscribe_funding_tickers, send,
      test, print_active_offers, update_funding_available_usd.
  all: try rewrite H.
  all: handler_frame.
Qed.

Lemma handle_same_ledger e clock message ev :
  is_offer_event ev = false ->
  keeps same_ledger (handle e clock message ev).
Proof.
  pose proof same_ledger_refl as Hr. pose proof same_ledger_trans as Ht.
  destruct ev; simpl; intros H; try discriminate;
    unfold print, subscribe_funding_trades, subscribe_funding_tickers, send,
      test, print_active_offers.
  all: handler_frame.
Qed.

(** ** Shapes of the classified messages *)

Ltac peel H t :=
  destruct t as [[|]|] eqn:?; cbn [bind_res] in H; try discriminate H.

Lemma is_heart_beat_shape (message : json) :
  is_heart_beat message = Ok true ->
  exists items t,
    message = JList items /\ nth_error items 1 = Some t /\
    py_eq t (KStr "hb") = true.
Proof.
  unfold is_heart_beat, and_then, eq_const, get_type.
  destruct message as [| | | |items|];
    cbn [is_list bind_res getitem_int]; try discriminate.
  destruct (nth_error items 1) as [t|] eqn:E; cbn [bind_res]; try discriminate.
  intros H. exists items, t. repeat split; auto.
  injection H as H. exact H.
Qed.

Lemma classify_heart_beat (message c : json) :
  classify message = Ok (HeartBeat c) ->
  exists items t,
    message = JList items /\ nth_error items 0 = Some c /\
    nth_error items 1 = Some t /\ py_eq t (KStr "hb") = true.
Proof.
  intros H. unfold classify in H.
  peel H (is_error message). peel H (is_connected message).
  peel H (is_authenticated message). peel H (is_subscribed message).
  peel H (is_heart_beat message).
  - match goal with E : is_heart_beat _ = Ok true |- _ =>
      apply is_heart_beat_shape in E as (items & t & -> & Ht & Hb) end.
    exists items, t. cbn [getitem_int] in H.
    destruct (nth_error items 0) as [c0|]; cbn [bind_res] in H; try discriminate.
    repeat split; auto. congruence.
  - peel H (is_wallet_update message). peel H (is_funding_offer_update message).
    peel H (is_funding_offer_snapshot message).
    peel H (is_public_funding_ticker message).
Qed.

Lemma classify_scalar (message : json) :
  is_dict message = false -> is_list message = false ->
  classify message = Ok Unrecognized.
Proof. destruct message; simpl; try discriminate; reflexivity. Qed.

(** ** Triggers of the decision engine *)

(** C7: cancel and submit commands are sent only while a private heart
    beat (a sequence whose second element is ["hb"] and whose channel id
    equals 0) or a public ticker is handled.  For every other message no
    cancel or submit command is sent; a public heart beat [[c, "hb", ..]]
    with [c != 0] returns at once: nothing is sent or printed and the
    globals are untouched. *)
Theorem C7_offer_commands_only_on_triggers :
  forall (e : env) (clock : Q) (message : json) (w : world),
    (offer_commands (effects_of (dispatch e clock message w)) <> [] ->
     (exists items c t,
         message = JList items /\
         nth_error items 0 = Some c /\ py_eq c (KNum 0) = true /\
         nth_error items 1 = Some t /\ py_eq t (KStr "hb") = true /\
         classify message = Ok (HeartBeat c))
     \/ classify message = Ok PublicFundingTicker) /\
    (forall c rest,
        message = JList (c :: JStr "hb" :: rest) ->
        py_eq c (KNum 0) = false ->
        classify message = Ok (HeartBeat c) /\
        dispatch e clock message w = (w, [], Ok tt)).
Proof.
  intros e clock message w. split.
  - intros Hcmd. rewrite dispatch_classify in Hcmd.
    destruct (classify message) as [ev|x] eqn:Hc; [|now elim Hcmd].
    destruct (is_trigger ev) eqn:Ht.
    + destruct ev; simpl in Ht; try discriminate; auto.
      left. destruct (classify_heart_beat _ Hc) as (items & t & -> & H0 & H1 & Hb).
      exists items, channel, t. repeat split; auto.
    + elim Hcmd. apply offer_commands_none.
      now apply handle_quiet.
  - intros c rest -> Hc.
    assert (classify (JList (c :: JStr "hb" :: rest)) = Ok (HeartBeat c)) as Hcl
      by reflexivity.
    split; auto.
    rewrite dispatch_classify, Hcl. simpl. now rewrite Hc.
Qed.

Lemma C7_witness :
  dispatch env0 1000 (JList [num 5; JStr "hb"]) sample_world
  = (sample_world, [], Ok tt)
  /\ classify (JList [num 0; JStr "hb"]) = Ok (HeartBeat (num 0)).
Proof.
  pose proof (C7_offer_commands_only_on_triggers env0 1000
                (JList [num 5; JStr "hb"]) sample_world) as [_ Hpub].
  pose proof (C7_offer_commands_only_on_triggers env0 1000
                (JList [num 0; JStr "hb"]) sample_world) as [Hpriv _].
  split.
  - apply (Hpub (num 5) [] eq_refl eq_refl).
  - destruct Hpriv as [(items & c & t & Hm & H0 & _ & _ & _ & Hcl)|Hcl].
    + vm_compute. discriminate.
    + inversion Hm; subst items. inversion H0; subst c. exact Hcl.
    + discriminate Hcl.
Defined.

(** ** On which messages the classifier raises *)

Ltac ok_or_raise :=
  split;
  [ intros [? H]; first [reflexivity | discriminate H]
  | intros H; first [eexists; reflexivity | discriminate H] ].

Ltac split_ifs :=
  repeat match goal with
         | |- context [if ?b then _ else _] =>
             destruct b; cbn [bind_res negb andb is_list]
         end.

Ltac unfold_classify :=
  unfold classify, is_error, is_connected, is_authenticated, is_subscribed,
    is_heart_beat, is_wallet_update, is_funding_offer_update,
    is_funding_offer_snapshot, is_public_funding_ticker,
    and_then, eq_const, ne_const, get_type, get_event.

Lemma py_eq_str (v : json) (s : string) :
  py_eq v (KStr s) = true <-> v = JStr s.
Proof.
  destruct v as [|b|q|s'|l|f]; simpl; unfold key_eq; simpl;
    try (split; [discriminate | intros H; discriminate H]).
  rewrite String.eqb_eq. split; congruence.
Qed.

Lemma classify_list_ok (items : list json) :
  (exists ev, classify (JList items) = Ok ev) <->
  well_shaped (JList items) = true.
Proof.
  destruct items as [|c [|t rest]]; [ok_or_raise | ok_or_raise |].
  unfold_classify.
  cbn [is_dict is_list bind_res getitem_int nth_error well_shaped].
  destruct (py_eq c (KNum 0)); cbn [negb andb];
    destruct t as [| | | s | [|x xs] | ];
    cbn [is_list getitem_int nth_error bind_res py_eq existsb orb];
    split_ifs; try ok_or_raise.
Qed.

Lemma classify_dict_ok (fields : list (string * json)) :
  (exists ev, classify (JDict fields) = Ok ev) <->
  well_shaped (JDict fields) = true.
Proof.
  unfold_classify.
  cbn [is_dict is_list bind_res getitem_str contains_str well_shaped].
  destruct (lookup_field "event" fields) as [ev|]; cbn [bind_res]; [|ok_or_raise].
  destruct (py_eq ev (KStr "error")) eqn:Eerr.
  { apply py_eq_str in Eerr; subst ev. cbn. ok_or_raise. }
  destruct (py_eq ev (KStr "info")) eqn:Einfo.
  { apply py_eq_str in Einfo; subst ev. cbn.
    destruct (lookup_field "platform" fields) as [p|]; cbn; [|ok_or_raise].
    destruct p as [| | | s | l | pf]; cbn; try ok_or_raise.
    - destruct (is_substring "status" s); cbn; ok_or_raise.
    - destruct (existsb _ l); cbn; ok_or_raise.
    - destruct (lookup_field "status" pf); cbn; split_ifs; ok_or_raise. }
  cbn [bind_res andb].
  destruct (py_eq ev (KStr "auth"));
    [destruct (lookup_field "status" fields)|];
    cbn [bind_res]; split_ifs; ok_or_raise.
Qed.

Lemma classify_ok_iff_well_shaped (message : json) :
  (exists ev, classify message = Ok ev) <-> well_shaped message = true.
Proof.
  destruct message as [| | | | items | fields];
    auto using classify_list_ok, classify_dict_ok; ok_or_raise.
Qed.

Lemma classify_raises (message : json) (x : exn) :
  classify message = Raise x ->
  x = KeyError \/ x = IndexError \/ x = TypeError.
Proof.
  destruct message as [| | | | items | fields]; try discriminate.
  - destruct items as [|c [|t rest]];
      [intros [= <-]; auto | intros [= <-]; auto |].
    unfold_classify.
    cbn [is_dict is_list bind_res getitem_int nth_error].
    destruct (py_eq c (KNum 0)); cbn [negb andb];
      destruct t as [| | | s | [|y ys] | ];
      cbn [is_list getitem_int nth_error bind_res py_eq existsb orb];
      split_ifs; intros [= <-]; auto.
  - unfold_classify.
    cbn [is_dict is_list bind_res getitem_str contains_str].
    destruct (lookup_field "event" fields) as [ev|]; cbn [bind_res];
      [|intros [= <-]; auto].
    destruct (py_eq ev (KStr "error")) eqn:Eerr.
    { apply py_eq_str in Eerr; subst ev. cbn. discriminate. }
    destruct (py_eq ev (KStr "info")) eqn:Einfo.
    { apply py_eq_str in Einfo; subst ev. cbn.
      destruct (lookup_field "platform" fields) as [p|]; cbn; [|discriminate].
      destruct p as [| | | s | l | pf]; cbn; try (intros [= <-]; auto).
      - destruct (is_substring "status" s); cbn; intros [= <-]; auto.
      - destruct (existsb _ l); cbn; intros [= <-]; auto.
      - destruct (lookup_field "status" pf); cbn; split_ifs; discriminate. }
    cbn [bind_res andb].
    destruct (py_eq ev (KStr "auth"));
      [destruct (lookup_field "status" fields)|];
      cbn [bind_res]; split_ifs; intros [= <-]; auto.
Qed.

(** ** Unrecognized messages *)

(** C3, as the code has it: classification returns a variant exactly on
    the well-shaped messages and raises [KeyError], [IndexError] or
    [TypeError] on the others (a keyed record without ["event"], an
    ["auth"] record without ["status"], an ["info"] record whose
    ["platform"] is a scalar or a string or sequence containing
    ["status"], a sequence of fewer than two elements, a sequence with a
    non-zero channel id whose second element is the empty sequence).  A
    value that is neither a keyed record nor a sequence is
    [Unrecognized].  On an [Unrecognized] message, and on a message whose
    classification raises, [dispatch] sends and prints nothing and leaves
    the ledger and the market state as they were. *)
Theorem C3_unrecognized_is_dropped :
  forall (e : env) (clock : Q) (message : json) (w : world),
    ((exists ev, classify message = Ok ev) <-> well_shaped message = true) /\
    (forall x, classify message = Raise x ->
               x = KeyError \/ x = IndexError \/ x = TypeError) /\
    (is_dict message = false -> is_list message = false ->
     classify message = Ok Unrecognized) /\
    (classify message = Ok Unrecognized ->
     dispatch e clock message w = (w, [], Ok tt)) /\
    (forall x, classify message = Raise x ->
               dispatch e clock message w = (w, [], Raise x)).
Proof.
  intros e clock message w.
  split; [apply classify_ok_iff_well_shaped|].
  split; [apply classify_raises|].
  split; [apply classify_scalar|].
  split.
  - intros H. now rewrite dispatch_classify, H.
  - intros x H. now rewrite dispatch_classify, H.
Qed.

Lemma C3_witness :
  dispatch env0 1000 (JStr "pong") sample_world = (sample_world, [], Ok tt)
  /\ dispatch env0 1000 (JDict []) sample_world = (sample_world, [], Raise KeyError).
Proof.
  pose proof (C3_unrecognized_is_dropped env0 1000 (JStr "pong") sample_world)
    as (_ & _ & Hscalar & Hdrop & _).
  pose proof (C3_unrecognized_is_dropped env0 1000 (JDict []) sample_world)
    as (_ & _ & _ & _ & Hraise).
  split.
  - apply Hdrop, Hscalar; reflexivity.
  - apply Hraise. reflexivity.
Defined.

(** The claim C3 as stated fails: a keyed record without an ["event"]
    field makes the classifier raise [KeyError], an empty sequence makes
    it raise [IndexError]. *)
Lemma C3_counterexample :
  classify (JDict []) = Raise KeyError /\
  classify (JList []) = Raise IndexError /\
  result_of (dispatch env0 1000 (JDict []) initial_world) = Raise KeyError /\
  ~ (forall message, exists ev, classify message = Ok ev).
Proof.
  repeat split.
  intros H. destruct (H (JDict [])) as [ev Hev]. discriminate Hev.
Qed.

(** ** Applying offer records *)

Lemma ledger_get_congr (a b : key) (offers : ledger) :
  key_eq a b = true -> ledger_get a offers = ledger_get b offers.
Proof.
  intros H. induction offers as [|[k o] rest IH]; simpl; auto.
  rewrite IH. rewrite (key_eq_sym k a), (key_eq_sym k b).
  now rewrite (key_eq_congr _ _ k H).
Qed.

Lemma ledger_get_apply_op (op : ledger_op) (k : key) (offers : ledger) :
  ledger_get k (apply_op op offers)
  = if key_eq (op_key op) k then op_value op else ledger_get k offers.
Proof.
  destruct op as [id o|id]; simpl.
  - destruct (key_eq id k) eqn:E.
    + now apply ledger_get_set_eq.
    + now apply ledger_get_set_other.
  - destruct (ledger_mem id offers) eqn:Hm.
    + destruct (key_eq id k) eqn:E.
      * now apply ledger_get_del_eq.
      * now apply ledger_get_del_other.
    + destruct (key_eq id k) eqn:E; auto.
      rewrite <- (ledger_get_congr _ _ offers E).
      destruct (ledger_get id offers) eqn:G; auto.
      assert (ledger_mem id offers = true) by (apply ledger_mem_get; congruence).
      congruence.
Qed.

Lemma ledger_get_apply_ops (ops : list ledger_op) (k : key) (offers : ledger) :
  ledger_get k (apply_ops ops offers) = last_write k ops (ledger_get k offers).
Proof.
  unfold apply_ops. revert offers.
  induction ops as [|op rest IH]; intros offers; simpl; auto.
  now rewrite IH, ledger_get_apply_op.
Qed.

Lemma last_write_cases (k : key) (ops : list ledger_op) :
  (forall init, last_write k ops init = init) \/
  (exists v, forall init, last_write k ops init = v).
Proof.
  induction ops as [|op rest IH]; simpl; auto.
  destruct IH as [Hid|[v Hv]].
  - destruct (key_eq (op_key op) k); auto.
    right. exists (op_value op). auto.
  - right. exists v. auto.
Qed.

Lemma last_write_idempotent (k : key) (ops : list ledger_op) (init : option offer) :
  last_write k ops (last_write k ops init) = last_write k ops init.
Proof.
  destruct (last_write_cases k ops) as [Hid|[v Hv]].
  - now rewrite !Hid.
  - now rewrite !Hv.
Qed.

Lemma last_write_untouched (k : key) (ops : list ledger_op) (init : option offer) :
  (forall op, In op ops -> key_eq (op_key op) k = false) ->
  last_write k ops init = init.
Proof.
  revert init. induction ops as [|op rest IH]; intros init H; simpl; auto.
  rewrite (H op) by (simpl; auto).
  apply IH. intros op' Hin. apply H. simpl; auto.
Qed.

Lemma apply_ops_wf (ops : list ledger_op) (offers : ledger) :
  ledger_wf offers = true -> ledger_wf (apply_ops ops offers) = true.
Proof.
  unfold apply_ops. revert offers.
  induction ops as [|op rest IH]; intros offers H; simpl; auto.
  apply IH. destruct op as [id o|id]; simpl.
  - now apply ledger_wf_set.
  - destruct (ledger_mem id offers); auto. now apply ledger_wf_del.
Qed.

(** The loop of a snapshot applies the operations of its records, in
    order, up to the first record that raises. *)
Lemma for_each_update_offer_run (records : list json) (w : world) :
  for_each update_offer records w
  = (set_active_offers (apply_ops (snapshot_ops records) (active_offers w)) w,
     [], snapshot_result records).
Proof.
  revert w. induction records as [|r rest IH]; intros w; simpl.
  - unfold ret. now rewrite set_active_offers_same.
  - unfold bind. rewrite update_offer_run.
    destruct (record_op r) as [op|x]; simpl.
    + rewrite IH. reflexivity.
    + now rewrite set_active_offers_same.
Qed.

Lemma classify_snapshot (c : json) (records : json) (rest : list json) :
  py_eq c (KNum 0) = true ->
  classify (JList (c :: JStr "fos" :: records :: rest)) = Ok FundingOfferSnapshot.
Proof.
  intros H. unfold_classify.
  cbn [is_dict is_list bind_res getitem_int nth_error]. rewrite H. reflexivity.
Qed.

Lemma classify_update (c : json) (tag : string) (record : json) (rest : list json) :
  py_eq c (KNum 0) = true ->
  In tag ["fon"; "fou"; "foc"]%string ->
  classify (JList (c :: JStr tag :: record :: rest)) = Ok FundingOfferUpdate.
Proof.
  intros H Ht. unfold_classify.
  cbn [is_dict is_list bind_res getitem_int nth_error]. rewrite H.
  destruct Ht as [<-|[<-|[<-|[]]]]; reflexivity.
Qed.

Lemma dispatch_snapshot e clock c records rest w :
  py_eq c (KNum 0) = true ->
  dispatch e clock (JList (c :: JStr "fos" :: JList records :: rest)) w
  = (world_of (for_each update_offer records w),
     match snapshot_result records with
     | Ok _ => [EPrint (LogActiveOffers
                          (active_offers (world_of (for_each update_offer records w))))]
     | Raise _ => []
     end,
     snapshot_result records).
Proof.
  intros H. rewrite dispatch_classify, (classify_snapshot _ _ _ H).
  cbn [handle]. rewrite bind_lift. cbn [getitem_int nth_error].
  rewrite bind_lift. cbn [py_iter]. unfold bind.
  rewrite for_each_update_offer_run. unfold world_of; cbn [fst].
  destruct (snapshot_result records) as [[]|x]; reflexivity.
Qed.

Lemma dispatch_update e clock c tag record rest w :
  py_eq c (KNum 0) = true ->
  In tag ["fon"; "fou"; "foc"]%string ->
  dispatch e clock (JList (c :: JStr tag :: record :: rest)) w
  = (world_of (update_offer record w),
     match record_op record with
     | Ok _ => [EPrint (LogActiveOffers
                          (active_offers (world_of (update_offer record w))))]
     | Raise _ => []
     end,
     match record_op record with
     | Ok _ => Ok tt
     | Raise x => Raise x
     end).
Proof.
  intros H Ht. rewrite dispatch_classify, (classify_update _ _ _ H Ht).
  cbn [handle]. rewrite bind_lift. cbn [getitem_int nth_error]. unfold bind.
  rewrite update_offer_run. unfold world_of.
  destruct (record_op record) as [op|x]; reflexivity.
Qed.

Lemma ledger_find_none (k : key) (offers : ledger) :
  ledger_mem k offers = false -> ledger_find k offers = None.
Proof.
  unfold ledger_mem. induction offers as [|[k' o'] rest IH]; simpl; auto.
  destruct (key_eq k' k); simpl; [discriminate | auto].
Qed.

Lemma ledger_find_set (id k : key) (o : offer) (offers : ledger) :
  key_eq id k = true ->
  ledger_find k (ledger_set id o offers)
  = Some (match ledger_find k offers with Some (k0, _) => k0 | None => id end, o).
Proof.
  intros Hk. induction offers as [|[k' o'] rest IH]; simpl.
  - now rewrite Hk.
  - destruct (key_eq k' id) eqn:E; simpl.
    + now rewrite (key_eq_congr _ _ k E), Hk.
    + assert (key_eq k' k = false) as ->; auto.
      rewrite (key_eq_sym k' k), <- (key_eq_congr _ _ k' Hk).
      now rewrite key_eq_sym.
Qed.

Lemma ledger_find_set_other (id k : key) (o : offer) (offers : ledger) :
  key_eq id k = false ->
  ledger_find k (ledger_set id o offers) = ledger_find k offers.
Proof.
  intros Hk. induction offers as [|[k' o'] rest IH]; simpl.
  - now rewrite Hk.
  - destruct (key_eq k' id) eqn:E; simpl.
    + now rewrite (key_eq_congr _ _ k E), Hk.
    + now rewrite IH.
Qed.

Lemma ledger_find_del (id k : key) (offers : ledger) :
  ledger_find k (ledger_del id offers)
  = if key_eq id k then None else ledger_find k offers.
Proof.
  unfold ledger_del. induction offers as [|[k' o'] rest IH]; simpl.
  - now destruct (key_eq id k).
  - destruct (key_eq k' id) eqn:E; simpl.
    + rewrite IH, <- (key_eq_congr _ _ k E). now destruct (key_eq k' k).
    + rewrite IH. destruct (key_eq k' k) eqn:E'; auto.
      now rewrite (key_eq_sym id k), <- (key_eq_congr _ _ id E'), E.
Qed.

Lemma ledger_find_apply_op (op : ledger_op) (k : key) (offers : ledger) :
  ledger_find k (apply_op op offers) = op_entry k (ledger_find k offers) op.
Proof.
  unfold op_entry. destruct op as [id o|id]; cbn [apply_op op_key].
  - destruct (key_eq id k) eqn:E.
    + now apply ledger_find_set.
    + now apply ledger_find_set_other.
  - destruct (ledger_mem id offers) eqn:Hm.
    + apply ledger_find_del.
    + destruct (key_eq id k) eqn:E; auto.
      apply ledger_find_none. now rewrite <- (ledger_mem_congr _ _ offers E).
Qed.

Lemma ledger_find_apply_ops (ops : list ledger_op) (k : key) (offers : ledger) :
  ledger_find k (apply_ops ops offers) = ops_entry k ops (ledger_find k offers).
Proof.
  unfold apply_ops, ops_entry. revert offers.
  induction ops as [|op rest IH]; intros offers; simpl; auto.
  now rewrite IH, ledger_find_apply_op.
Qed.

(** The entry at [k] after [ops] is fixed by [ops], or is the entry
    before, or is a value fixed by [ops] under the key object that was
    there before. *)
Lemma ops_entry_cases (k : key) (ops : list ledger_op) :
  (exists c, forall init, ops_entry k ops init = c) \/
  (forall init, ops_entry k ops init = init) \/
  (exists id o, forall init,
      ops_entry k ops init
      = Some (match init with Some (k0, _) => k0 | None => id end, o)).
Proof.
  unfold ops_entry.
  induction ops as [|op rest IH]; cbn [fold_left]; auto.
  destruct (key_eq (op_key op) k) eqn:E;
    destruct IH as [[c Hc]|[Hid|(id & o & Hw)]].
  - left. exists c. auto.
  - destruct op as [id o|id].
    + right. right. exists id, o. intros init.
      rewrite Hid. unfold op_entry. now rewrite E.
    + left. exists None. intros init.
      rewrite Hid. unfold op_entry. now rewrite E.
  - destruct op as [id' o'|id'].
    + right. right. exists id', o. intros init.
      rewrite Hw. unfold op_entry. rewrite E.
      now destruct init as [[k0 o0]|].
    + left. exists (Some (id, o)). intros init.
      rewrite Hw. unfold op_entry. now rewrite E.
  - left. exists c. auto.
  - right. left. intros init. rewrite Hid. unfold op_entry. now rewrite E.
  - right. right. exists id, o. intros init.
    rewrite Hw. unfold op_entry. now rewrite E.
Qed.

Lemma ops_entry_idempotent (k : key) (ops : list ledger_op)
      (init : option (key * offer)) :
  ops_entry k ops (ops_entry k ops init) = ops_entry k ops init.
Proof.
  destruct (ops_entry_cases k ops) as [[c Hc]|[Hid|(id & o & Hw)]].
  - now rewrite !Hc.
  - now rewrite !Hid.
  - rewrite !Hw. now destruct init as [[k0 o0]|].
Qed.

Lemma ledger_find_In (k : key) (o : offer) (offers : ledger) :
  ledger_wf offers = true ->
  (In (k, o) offers <-> ledger_find k offers = Some (k, o)).
Proof.
  induction offers as [|[k' o'] rest IH]; simpl.
  - intros _. split; [contradiction | discriminate].
  - intros H. apply andb_true_iff in H as [Hm Hw].
    apply negb_true_iff in Hm. specialize (IH Hw).
    destruct (key_eq k' k) eqn:E.
    + split.
      * intros [Heq|Hin]; [congruence|].
        rewrite (ledger_mem_congr _ _ rest E), (ledger_mem_In _ _ _ Hin) in Hm.
        discriminate.
      * intros [= -> ->]. auto.
    + split.
      * intros [[= -> ->]|Hin]; [|now apply IH].
        rewrite key_eq_refl in E. discriminate.
      * intros Hf. right. now apply IH.
Qed.

Lemma snapshot_ops_In (records : list json) (op : ledger_op) :
  In op (snapshot_ops records) ->
  exists r, In r records /\ record_op r = Ok op.
Proof.
  induction records as [|r rest IH]; simpl; [contradiction|].
  destruct (record_op r) as [op'|x] eqn:E; simpl; [|contradiction].
  intros [<-|H].
  - exists r. auto.
  - destruct (IH H) as (r' & Hin & Hr). exists r'. auto.
Qed.

Lemma record_op_fields (items : list json) (id_v t a st r : json) (id : key) :
  nth_error items 0 = Some id_v ->
  nth_error items 3 = Some t ->
  nth_error items 4 = Some a ->
  nth_error items 10 = Some st ->
  nth_error items 14 = Some r ->
  py_hash id_v = Ok id ->
  record_op (JList items)
  = Ok (if negb (py_eq st (KStr "ACTIVE"))
        then OpDel id
        else OpSet id {| time := t; amount := a; rate := r |}).
Proof.
  intros H0 H3 H4 H10 H14 Hh. unfold record_op, getitem_int.
  now rewrite H0, H3, H4, H14, H10; cbn [bind_res]; rewrite Hh.
Qed.

(** ** The offer ledger *)

(** C4: [update_offer] on a positional record reads the id at index 0,
    the creation time at index 3, the amount at index 4, the status at
    index 10 and the rate at index 14.  When the status is not ["ACTIVE"]
    the id is removed from the ledger, which is a no-op when the id is
    absent; otherwise the entry is inserted or overwritten; no other key
    changes.  A funding offer snapshot applies [update_offer] once per
    record, over the existing ledger: an id that no record of the
    snapshot names keeps its entry. *)
Theorem C4_apply_offer_record :
  forall (w : world),
    (forall items id_v t a st r id,
        nth_error items 0 = Some id_v ->
        nth_error items 3 = Some t ->
        nth_error items 4 = Some a ->
        nth_error items 10 = Some st ->
        nth_error items 14 = Some r ->
        py_hash id_v = Ok id ->
        let run := update_offer (JList items) w in
        let w' := world_of run in
        result_of run = Ok tt /\
        same_market w w' /\
        (py_eq st (KStr "ACTIVE") = false ->
         ledger_get id (active_offers w') = None /\
         (ledger_mem id (active_offers w) = false -> w' = w)) /\
        (py_eq st (KStr "ACTIVE") = true ->
         ledger_get id (active_offers w')
         = Some {| time := t; amount := a; rate := r |}) /\
        (forall k, key_eq id k = false ->
                   ledger_get k (active_offers w') = ledger_get k (active_offers w))) /\
    (forall e clock c records rest,
        py_eq c (KNum 0) = true ->
        let message := JList (c :: JStr "fos" :: JList records :: rest) in
        let w' := world_of (dispatch e clock message w) in
        classify message = Ok FundingOfferSnapshot /\
        w' = world_of (for_each update_offer records w) /\
        (forall k,
            (forall r op, In r records -> record_op r = Ok op ->
                          key_eq (op_key op) k = false) ->
            ledger_get k (active_offers w') = ledger_get k (active_offers w))).
Proof.
  intros w. split.
  - intros items id_v t a st r id H0 H3 H4 H10 H14 Hh run w'.
    subst run w'. rewrite update_offer_run.
    rewrite (record_op_fields _ H0 H3 H4 H10 H14 Hh).
    unfold result_of, world_of; cbn [fst snd].
    split; [reflexivity|]. split; [repeat split|].
    cbn [active_offers set_active_offers].
    split; [|split].
    + intros Hst. rewrite Hst. cbn [negb]. split.
      * rewrite ledger_get_apply_op. cbn [op_key op_value].
        now rewrite key_eq_refl.
      * intros Hm. cbn [apply_op]. rewrite Hm. apply set_active_offers_same.
    + intros Hst. rewrite Hst. cbn [negb].
      rewrite ledger_get_apply_op. cbn [op_key op_value].
      now rewrite key_eq_refl.
    + intros k Hk. rewrite ledger_get_apply_op.
      destruct (negb (py_eq st (KStr "ACTIVE"))); cbn [op_key]; now rewrite Hk.
  - intros e clock c records rest Hc message w'. subst message w'.
    rewrite (@dispatch_snapshot e clock c records rest w Hc).
    split; [now apply classify_snapshot|].
    unfold world_of at 1; cbn [fst]. split; [reflexivity|].
    intros k Hk. rewrite for_each_update_offer_run.
    unfold world_of; cbn [fst active_offers set_active_offers].
    rewrite ledger_get_apply_ops. apply last_write_untouched.
    intros op Hin. apply snapshot_ops_In in Hin as (r & Hr & Hop). eauto.
Qed.

Lemma C4_witness :
  let w1 := world_of (update_offer (offer_record 1 1000 10 "ACTIVE" (3#10000))
                                   initial_world) in
  let w2 := world_of (update_offer (offer_record 1 1000 10 "EXECUTED" (3#10000)) w1) in
  ledger_get (KNum 1) (active_offers w1)
  = Some {| time := num 1000; amount := num 10; rate := JNum (3#10000) |}
  /\ ledger_get (KNum 1) (active_offers w2) = None.
Proof.
  intros w1 w2.
  pose proof (C4_apply_offer_record initial_world) as [Hrec _].
  pose proof (C4_apply_offer_record w1) as [Hrec' _].
  split.
  - eapply (Hrec _ (num 1) (num 1000) (num 10) (JStr "ACTIVE") (JNum (3#10000)));
      reflexivity.
  - eapply (Hrec' _ (num 1) (num 1000) (num 10) (JStr "EXECUTED") (JNum (3#10000)));
      reflexivity.
Defined.

(** C5: for every ledger and every snapshot, handling the same snapshot
    twice in a row leaves the ledger that handling it once leaves: the
    two ledgers hold the same offer at every id (they are equal as
    dicts) and, the keys of the ledger being distinct, the same set of
    entries; the market state is the same. *)
Theorem C5_snapshot_idempotent :
  forall (e : env) (clock clock' : Q) (c : json) (records rest : list json)
         (w : world),
    py_eq c (KNum 0) = true ->
    let message := JList (c :: JStr "fos" :: JList records :: rest) in
    let w1 := world_of (dispatch e clock message w) in
    let w2 := world_of (dispatch e clock' message w1) in
    classify message = Ok FundingOfferSnapshot /\
    ledger_equal (active_offers w2) (active_offers w1) /\
    same_market w1 w2 /\
    (ledger_wf (active_offers w) = true ->
     ledger_wf (active_offers w1) = true /\
     ledger_wf (active_offers w2) = true /\
     same_entries (active_offers w2) (active_offers w1)).
Proof.
  intros e clock clock' c records rest w Hc message w1 w2.
  subst w2 w1 message.
  rewrite !(fun k v => @dispatch_snapshot e k c records rest v Hc).
  unfold world_of at 1 3 4 6 7; cbn [fst].
  rewrite !for_each_update_offer_run. unfold world_of; cbn [fst].
  cbn [active_offers set_active_offers].
  split; [now apply classify_snapshot|].
  split; [|split].
  - intros k. rewrite !ledger_get_apply_ops. apply last_write_idempotent.
  - repeat split.
  - intros Hwf.
    assert (ledger_wf (apply_ops (snapshot_ops records) (active_offers w)) = true)
      as Hwf1 by now apply apply_ops_wf.
    assert (ledger_wf (apply_ops (snapshot_ops records)
                         (apply_ops (snapshot_ops records) (active_offers w))) = true)
      as Hwf2 by now apply apply_ops_wf.
    repeat split; auto.
    + intros Hin. destruct entry as [k o].
      apply (ledger_find_In k o _ Hwf1).
      apply (ledger_find_In k o _ Hwf2) in Hin.
      now rewrite !ledger_find_apply_ops, ops_entry_idempotent,
        <- ledger_find_apply_ops in Hin.
    + intros Hin. destruct entry as [k o].
      apply (ledger_find_In k o _ Hwf2).
      apply (ledger_find_In k o _ Hwf1) in Hin.
      now rewrite !ledger_find_apply_ops, ops_entry_idempotent,
        <- ledger_find_apply_ops.
Qed.

(** The order in which the dict is iterated, hence the order of the
    cancel commands, is not preserved: here one handling leaves the ids
    in the order 1, 2 and a second one in the order 2, 1. *)
Example snapshot_twice_may_reorder :
  let message :=
    snapshot_message [offer_record 1 1000 10 "ACTIVE" (3#10000);
                      offer_record 1 1000 10 "CANCELED" (3#10000);
                      offer_record 1 1000 10 "ACTIVE" (3#10000);
                      offer_record 2 1000 10 "ACTIVE" (3#10000)] in
  let w1 := world_of (dispatch env0 1000 message initial_world) in
  let w2 := world_of (dispatch env0 1001 message w1) in
  map fst (active_offers w1) = [KNum 1; KNum 2] /\
  map fst (active_offers w2) = [KNum 2; KNum 1].
Proof. split; reflexivity. Qed.

Lemma C5_witness :
  let message :=
    snapshot_message [offer_record 1 1000 10 "ACTIVE" (3#10000);
                      offer_record 2 1000 10 "EXECUTED" (3#10000)] in
  let w1 := world_of (dispatch env0 1000 message sample_world) in
  let w2 := world_of (dispatch env0 1001 message w1) in
  ledger_equal (active_offers w2) (active_offers w1).
Proof.
  intros message w1 w2.
  apply (@C5_snapshot_idempotent env0 1000 1001 (JNum 0)
           [offer_record 1 1000 10 "ACTIVE" (3#10000);
            offer_record 2 1000 10 "EXECUTED" (3#10000)] [] sample_world).
  reflexivity.
Defined.

(** ** The decision engine is read-only *)

Lemma record_op_del (record : json) (k : key) :
  record_op record = Ok (OpDel k) -> reports_inactive k record.
Proof.
  unfold record_op, reports_inactive.
  destruct (getitem_int record 0) as [id_v|] eqn:H0; cbn [bind_res]; [|discriminate].
  destruct (getitem_int record 3) as [t|]; cbn [bind_res]; [|discriminate].
  destruct (getitem_int record 4) as [a|]; cbn [bind_res]; [|discriminate].
  destruct (getitem_int record 14) as [r|]; cbn [bind_res]; [|discriminate].
  destruct (getitem_int record 10) as [st|] eqn:H10; cbn [bind_res]; [|discriminate].
  destruct (py_hash id_v) as [k'|] eqn:Hh; cbn [bind_res]; [|discriminate].
  destruct (py_eq st (KStr "ACTIVE")) eqn:Hst; cbn [negb]; intros [= ->].
  exists id_v, k, st. repeat split; auto. apply key_eq_refl.
Qed.

Lemma reports_inactive_congr (a b : key) (record : json) :
  key_eq a b = true -> reports_inactive a record -> reports_inactive b record.
Proof.
  intros Hab (id_v & k & st & H0 & Hh & Hk & H10 & Hst).
  exists id_v, k, st. repeat split; auto. eapply key_eq_trans; eauto.
Qed.

Lemma apply_op_removes (id : key) (op : ledger_op) (offers : ledger) :
  ledger_mem id offers = true ->
  ledger_mem id (apply_op op offers) = false ->
  exists k, op = OpDel k /\ key_eq k id = true.
Proof.
  intros Hin Hout. destruct op as [k o|k]; cbn [apply_op] in Hout.
  - rewrite ledger_mem_set, Hin, orb_true_r in Hout. discriminate.
  - exists k. split; auto.
    destruct (ledger_mem k offers); [|congruence].
    rewrite ledger_mem_del, Hin, andb_true_r in Hout.
    now apply negb_false_iff in Hout.
Qed.

Lemma apply_ops_removes (id : key) (ops : list ledger_op) (offers : ledger) :
  ledger_mem id offers = true ->
  ledger_mem id (apply_ops ops offers) = false ->
  exists k, In (OpDel k) ops /\ key_eq k id = true.
Proof.
  unfold apply_ops. revert offers.
  induction ops as [|op rest IH]; intros offers Hin Hout; cbn [fold_left] in Hout.
  - congruence.
  - destruct (ledger_mem id (apply_op op offers)) eqn:Hop.
    + destruct (IH _ Hop Hout) as (k & Hk & Hid). exists k. simpl; auto.
    + destruct (apply_op_removes id op offers Hin Hop) as (k & -> & Hid).
      exists k. simpl; auto.
Qed.

Lemma dispatch_private_heart_beat e clock w :
  dispatch e clock private_heart_beat w
  = (w,
     EPrint LogPrivateHeartBeat :: effects_of (make_offer_decision clock w),
     result_of (make_offer_decision clock w)).
Proof.
  rewrite dispatch_classify.
  change (classify private_heart_beat) with (Ok (HeartBeat (JNum 0))).
  cbn [handle]. change (py_eq (JNum 0) (KNum 0)) with true. cbn [negb].
  unfold print. rewrite bind_emit.
  now rewrite make_offer_decision_world.
Qed.

(** C8: the decision engine never writes the ledger or the market state:
    the globals after [make_offer_decision] are the globals before it.
    In particular a cancel command does not remove the offer from the
    ledger: an offer that the cancellation pass reaches and whose age
    exceeds 120 seconds at the clock readings of two consecutive private
    heart beats receives a cancel command on each of them; and whenever
    handling a message makes an id leave the ledger, the message is a
    funding offer update or snapshot with a record that reports, for
    that id, a status other than ["ACTIVE"]. *)
Theorem C8_decision_engine_is_read_only :
  forall (e : env) (clock : Q) (w : world),
    world_of (make_offer_decision clock w) = w /\
    (forall clock2 id o created,
        In (id, o) (visited (active_offers w)) ->
        py_float (time o) = Ok created ->
        exceeds_120 (age_seconds clock created) = true ->
        exceeds_120 (age_seconds clock2 created) = true ->
        let r1 := dispatch e clock private_heart_beat w in
        let r2 := dispatch e clock2 private_heart_beat (world_of r1) in
        In (CancelOffer id) (sent (effects_of r1)) /\
        In (CancelOffer id) (sent (effects_of r2)) /\
        world_of r1 = w /\ world_of r2 = w) /\
    (forall message id,
        ledger_mem id (active_offers w) = true ->
        ledger_mem id (active_offers (world_of (dispatch e clock message w))) = false ->
        (classify message = Ok FundingOfferUpdate /\
         exists record,
           getitem_int message 2 = Ok record /\ reports_inactive id record)
        \/
        (classify message = Ok FundingOfferSnapshot /\
         exists m2 records record,
           getitem_int message 2 = Ok m2 /\ py_iter m2 = Ok records /\
           In record records /\ reports_inactive id record)).
Proof.
  intros e clock w.
  split; [apply make_offer_decision_world|]. split.
  - intros clock2 id o created Hin Ht Hold Hold2 r1 r2. subst r1 r2.
    rewrite (dispatch_private_heart_beat e clock w).
    unfold world_of at 1 2 3; cbn [fst].
    rewrite (dispatch_private_heart_beat e clock2 w).
    unfold world_of, effects_of; cbn [fst snd].
    assert (forall c, exceeds_120 (age_seconds c created) = true ->
              In (CancelOffer id)
                 (sent (EPrint LogPrivateHeartBeat ::
                        snd (fst (make_offer_decision c w))))) as Hsent.
    { intros c Hc.
      change (sent (EPrint LogPrivateHeartBeat :: ?l)) with (sent l).
      rewrite make_offer_decision_run. cbn [fst snd].
      rewrite sent_app. apply in_or_app. left.
      now apply cancel_sent_for_entry with (o := o) (created := created). }
    repeat split; auto.
    now rewrite (dispatch_private_heart_beat e clock2 w).
  - intros message id Hin Hout.
    rewrite dispatch_classify in Hout.
    destruct (classify message) as [ev|x] eqn:Hc.
    + destruct (is_offer_event ev) eqn:Hev.
      * destruct ev; try discriminate; cbn [handle] in Hout;
          rewrite bind_lift in Hout;
          (destruct (getitem_int message 2) as [m2|] eqn:Hm2;
           [|unfold world_of in Hout; cbn [fst] in Hout; congruence]).
        -- left. split; auto. exists m2. split; auto.
           unfold bind in Hout. rewrite update_offer_run in Hout.
           destruct (record_op m2) as [op|x] eqn:Hop;
             unfold world_of in Hout; cbn [fst active_offers] in Hout;
             [|congruence].
           destruct (apply_op_removes id op _ Hin Hout) as (k & -> & Hk).
           eapply reports_inactive_congr; [exact Hk|].
           now apply record_op_del.
        -- right. split; auto.
           rewrite bind_lift in Hout.
           destruct (py_iter m2) as [records|] eqn:Hit;
             [|unfold world_of in Hout; cbn [fst] in Hout; congruence].
           unfold bind in Hout. rewrite for_each_update_offer_run in Hout.
           assert (ledger_mem id (apply_ops (snapshot_ops records) (active_offers w))
                   = false) as Hout'.
           { destruct (snapshot_result records) as [[]|x];
               unfold world_of in Hout; cbn [fst active_offers] in Hout; exact Hout. }
           destruct (apply_ops_removes id _ _ Hin Hout') as (k & Hk & Hid).
           apply snapshot_ops_In in Hk as (record & Hrec & Hop).
           exists m2, records, record. repeat split; auto.
           eapply reports_inactive_congr; [exact Hid|].
           now apply record_op_del.
      * pose proof (@handle_same_ledger e clock message ev Hev w) as Hs.
        unfold same_ledger in Hs. rewrite Hs, Hin in Hout. discriminate.
    + unfold world_of in Hout; cbn [fst] in Hout.
      rewrite Hin in Hout. discriminate.
Qed.

Lemma C8_witness :
  let r1 := dispatch env0 1000 private_heart_beat sample_world in
  let r2 := dispatch env0 1001 private_heart_beat (world_of r1) in
  In (CancelOffer (KNum 1)) (sent (effects_of r1)) /\
  In (CancelOffer (KNum 1)) (sent (effects_of r2)) /\
  world_of r1 = sample_world /\ world_of r2 = sample_world.
Proof.
  pose proof (C8_decision_engine_is_read_only env0 1000 sample_world)
    as (_ & Htwice & _).
  apply (Htwice 1001 (KNum 1)
           {| time := num 879000; amount := num 50; rate := JNum (3#10000) |}
           (float_of_Q 879000)).
  - left. reflexivity.
  - reflexivity.
  - reflexivity.
  - reflexivity.
Defined.

(** ** The ledger is a dict in every reachable state *)

Lemma apply_op_wf (op : ledger_op) (offers : ledger) :
  ledger_wf offers = true -> ledger_wf (apply_op op offers) = true.
Proof. intros H. now apply (apply_ops_wf [op]). Qed.

Lemma dispatch_keeps_wf e clock message w :
  ledger_wf (active_offers w) = true ->
  ledger_wf (active_offers (world_of (dispatch e clock message w))) = true.
Proof.
  intros Hwf. rewrite dispatch_classify.
  destruct (classify message) as [ev|x]; [|exact Hwf].
  destruct (is_offer_event ev) eqn:Hev.
  - destruct ev; try discriminate; cbn [handle]; rewrite bind_lift;
      (destruct (getitem_int message 2) as [m2|]; [|exact Hwf]).
    + unfold bind. rewrite update_offer_run.
      destruct (record_op m2) as [op|x]; unfold world_of; cbn [fst active_offers];
        [now apply apply_op_wf | exact Hwf].
    + rewrite bind_lift. destruct (py_iter m2) as [records|]; [|exact Hwf].
      unfold bind. rewrite for_each_update_offer_run.
      destruct (snapshot_result records) as [[]|x];
        unfold world_of; cbn [fst active_offers]; now apply apply_ops_wf.
  - pose proof (@handle_same_ledger e clock message ev Hev w) as Hs.
    unfold same_ledger in Hs. now rewrite Hs.
Qed.

Lemma consume_keeps_wf e frames w :
  ledger_wf (active_offers w) = true ->
  ledger_wf (active_offers (world_of (consume e frames w))) = true.
Proof.
  revert w. induction frames as [|f rest IH]; intros w Hwf; cbn [consume].
  - exact Hwf.
  - rewrite bind_lift. destruct (json_loads (frame_payload f)) as [m|]; [|exact Hwf].
    pose proof (dispatch_keeps_wf e (frame_clock f) m w Hwf) as Hd.
    unfold bind, world_of in *.
    destruct (dispatch e (frame_clock f) m w) as [[w1 o1] [[]|x]];
      cbn [fst] in *; [|exact Hd].
    specialize (IH w1 Hd).
    now destruct (consume e rest w1) as [[w2 o2] r].
Qed.

Lemma initial_world_wf : ledger_wf (active_offers initial_world) = true.
Proof. reflexivity. Qed.

(** ** Wallet updates *)

(** C6, on the code: [is_wallet_update] looks at the second element only,
    so a sequence [[c, "wu", ..]] is a wallet update whatever its channel
    id [c]; on [[5, "wu", ["funding", "USD", 0, 0, 1000]]] the available
    balance is overwritten with 1000.  The sibling predicates
    [is_funding_offer_snapshot] and [is_funding_offer_update] do test
    [message[0] == 0]: on channel 5 a ["fos"] or ["fou"] message is
    [Unrecognized]. *)
Theorem C6_wallet_update_ignores_channel :
  (forall c rest, classify (JList (c :: JStr "wu" :: rest)) = Ok WalletUpdate) /\
  (let message :=
     JList [num 5; JStr "wu";
            JList [JStr "funding"; JStr "USD"; num 0; num 0; num 1000]] in
   py_eq (num 5) (KNum 0) = false /\
   funding_available_usd initial_world = JNum 0 /\
   funding_available_usd (world_of (dispatch env0 1000 message initial_world))
   = num 1000) /\
  classify (JList [num 5; JStr "fos"; JList []]) = Ok Unrecognized /\
  classify (JList [num 5; JStr "fou"; offer_record 1 1000 10 "ACTIVE" (3#10000)])
  = Ok Unrecognized.
Proof.
  split; [|split; [|split]].
  - intros c rest. reflexivity.
  - repeat split.
  - reflexivity.
  - reflexivity.
Qed.

(** ** Exceptions of the primitives *)

Lemma safe_Ok {A} (a : A) : safe (Ok a).
Proof. discriminate. Qed.

Lemma safe_bind_res {A B} (r : res A) (f : A -> res B) :
  safe r -> (forall a, safe (f a)) -> safe (bind_res r f).
Proof.
  intros Hr Hf. destruct r; simpl; [apply Hf|].
  intros [= ->]. now apply Hr.
Qed.

Lemma safe_and_then (a b : res bool) : safe a -> safe b -> safe (a &&& b).
Proof.
  intros Ha Hb. unfold and_then. apply safe_bind_res; auto.
  intros [|]; auto using safe_Ok.
Qed.

Lemma safe_getitem_int v i : safe (getitem_int v i).
Proof.
  destruct v; simpl; try discriminate.
  - destruct (String.get i s); discriminate.
  - destruct (nth_error items i); discriminate.
Qed.

Lemma safe_getitem_str v k : safe (getitem_str v k).
Proof.
  destruct v; simpl; try discriminate.
  destruct (lookup_field k fields); discriminate.
Qed.

Lemma safe_contains_str k v : safe (contains_str k v).
Proof. destruct v; discriminate. Qed.

Lemma safe_py_hash v : safe (py_hash v).
Proof. destruct v; discriminate. Qed.

Lemma safe_py_iter v : safe (py_iter v).
Proof. destruct v; discriminate. Qed.

Lemma safe_py_number v : safe (py_number v).
Proof. destruct v; discriminate. Qed.

Lemma safe_py_mul_100 v : safe (py_mul_100 v).
Proof. destruct v; discriminate. Qed.

Lemma safe_py_float v : safe (py_float v).
Proof.
  destruct v; try discriminate. unfold py_float.
  destruct (is_infinite (float_of_Q q)); discriminate.
Qed.

Lemma safe_py_sub x v : safe (py_sub x v).
Proof.
  unfold py_sub. pose proof (safe_py_float v) as H.
  destruct (py_float v); [discriminate|exact H].
Qed.

Lemma safe_py_int x : safe (py_int x).
Proof. destruct x; discriminate. Qed.

Lemma safe_json_loads p : safe (json_loads p).
Proof. destruct p; discriminate. Qed.

Lemma safe_eq_const r c : safe r -> safe (eq_const r c).
Proof. intros H. apply safe_bind_res; auto using safe_Ok. Qed.

Lemma safe_ne_const r c : safe r -> safe (ne_const r c).
Proof. intros H. apply safe_bind_res; auto using safe_Ok. Qed.

Lemma safe_get_event m : safe (get_event m).
Proof. unfold get_event. destruct (is_dict m); [apply safe_getitem_str | discriminate]. Qed.

Lemma safe_get_type m : safe (get_type m).
Proof. unfold get_type. destruct (is_list m); [apply safe_getitem_int | discriminate]. Qed.

Create HintDb safe.
#[local] Hint Resolve safe_Ok safe_and_then safe_getitem_int safe_getitem_str
  safe_contains_str safe_py_hash safe_py_iter safe_py_number safe_py_mul_100
  safe_py_float safe_py_sub safe_py_int
  safe_json_loads safe_eq_const safe_ne_const safe_get_event safe_get_type
  : safe.

Ltac safe_tac :=
  repeat first
    [ solve [auto with safe]
    | apply safe_and_then
    | apply safe_eq_const | apply safe_ne_const
    | apply safe_bind_res; [|intros] ].

Lemma safe_classifiers m :
  safe (is_error m) /\ safe (is_connected m) /\ safe (is_authenticated m) /\
  safe (is_subscribed m) /\ safe (is_heart_beat m) /\ safe (is_wallet_update m) /\
  safe (is_funding_offer_update m) /\ safe (is_funding_offer_snapshot m) /\
  safe (is_public_funding_ticker m).
Proof.
  unfold is_error, is_connected, is_authenticated, is_subscribed, is_heart_beat,
    is_wallet_update, is_funding_offer_update, is_funding_offer_snapshot,
    is_public_funding_ticker.
  repeat split; safe_tac.
Qed.

(** ** Handlers that never exit the process *)

Lemma no_exit_bind {A B} (m : M A) (f : A -> M B) :
  no_exit m -> (forall a, no_exit (f a)) -> no_exit (bind m f).
Proof.
  intros Hm Hf w. specialize (Hm w). unfold bind, result_of in *.
  destruct (m w) as [[w1 o1] [a|x]]; simpl in *.
  - specialize (Hf a w1). unfold result_of in Hf.
    now destruct (f a w1) as [[w2 o2] r].
  - intros [= ->]. now apply Hm.
Qed.

Lemma no_exit_lift {A} (r : res A) : safe r -> no_exit (lift r).
Proof. intros H w. exact H. Qed.

Lemma no_exit_ret {A} (a : A) : no_exit (ret a).
Proof. intros w. discriminate. Qed.

Lemma no_exit_get : no_exit get.
Proof. intros w. discriminate. Qed.

Lemma no_exit_put w' : no_exit (put w').
Proof. intros w. discriminate. Qed.

Lemma no_exit_emit e : no_exit (emit e).
Proof. intros w. discriminate. Qed.

Lemma no_exit_for_each {A} (f : A -> M unit) (l : list A) :
  (forall a, no_exit (f a)) -> no_exit (for_each f l).
Proof.
  intros Hf. induction l as [|a rest IH]; simpl.
  - apply no_exit_ret.
  - apply no_exit_bind; auto.
Qed.

Ltac no_exit_tac :=
  repeat first
    [ assumption
    | apply no_exit_ret | apply no_exit_get | apply no_exit_put
    | apply no_exit_emit
    | apply no_exit_lift; solve [safe_tac]
    | apply no_exit_for_each; intros
    | apply no_exit_bind; [|intros]
    | match goal with
      | |- no_exit (if ?b then _ else _) => destruct b
      | |- no_exit (let (_, _) := ?p in _) => destruct p
      end ].

Lemma make_offer_decision_no_exit clock : no_exit (make_offer_decision clock).
Proof.
  unfold make_offer_decision, cancel_if_old, cancel_offer, submit_offer, send, print.
  no_exit_tac.
Qed.

Lemma make_offer_decision_no_handshake clock :
  emits_only not_handshake_nor_usage (make_offer_decision clock).
Proof.
  unfold make_offer_decision, submit_offer, send, print.
  handler_frame.
  destruct a0 as [id o]. unfold cancel_if_old, cancel_offer, send, print.
  handler_frame.
Qed.

(** ** The argument check of [login] *)

Lemma login_usage e clock w :
  List.length (argv e) <> 2%nat ->
  login e clock w = (w, [EPrint LogUsage], Raise SystemExit).
Proof.
  intros H. unfold login.
  apply Nat.eqb_neq in H. rewrite H. reflexivity.
Qed.

#[local] Hint Resolve make_offer_decision_no_exit
  make_offer_decision_no_handshake : frame.

Lemma handle_no_exit e clock message ev :
  ev <> Connected -> no_exit (handle e clock message ev).
Proof.
  pose proof (make_offer_decision_no_exit clock) as Hd.
  destruct ev; simpl; intros H; try congruence;
    unfold print, test, print_active_offers, update_funding_available_usd,
      update_public_ticker, update_offer.
  all: no_exit_tac; auto.
Qed.

Lemma handle_no_handshake e clock message ev :
  ev <> Connected ->
  emits_only not_handshake_nor_usage (handle e clock message ev).
Proof.
  destruct ev; simpl; intros H; try congruence;
    unfold print, test, print_active_offers, update_funding_available_usd,
      update_public_ticker.
  all: handler_frame.
Qed.

Lemma usage_exit_bind {A B} (m : M A) (f : A -> M B) (w : world) :
  usage_exit (m w) -> (forall a w1, usage_exit (f a w1)) ->
  usage_exit (bind m f w).
Proof.
  intros Hm Hf. unfold usage_exit, bind, result_of, effects_of in *.
  destruct (m w) as [[w1 o1] [a|x]]; cbn [fst snd] in *.
  - destruct Hm as [[Hx _]|[_ Ho1]]; [discriminate Hx|].
    specialize (Hf a w1).
    destruct (f a w1) as [[w2 o2] r]; cbn [fst snd] in *.
    destruct Hf as [[Hr (pre & -> & Hpre)]|[Hr Ho2]].
    + left. split; auto. exists (o1 ++ pre).
      now rewrite app_assoc, forallb_app, Ho1, Hpre.
    + right. split; auto. now rewrite forallb_app, Ho1, Ho2.
  - destruct Hm as [[Hx Hpre]|[Hs Ho1]].
    + left. split; auto. congruence.
    + right. split; auto. intros [= ->]. now apply Hs.
Qed.

Lemma usage_exit_quiet {A} (m : M A) (w : world) :
  no_exit m -> emits_only not_handshake_nor_usage m -> usage_exit (m w).
Proof. intros Hn He. right. split; [apply Hn | apply He]. Qed.

Lemma dispatch_usage_exit e clock message w :
  List.length (argv e) <> 2%nat ->
  usage_exit (dispatch e clock message w).
Proof.
  intros Hargv. rewrite dispatch_classify.
  destruct (classify message) as [ev|x] eqn:Hc.
  - destruct ev;
      try (apply usage_exit_quiet;
           [apply handle_no_exit | apply handle_no_handshake]; discriminate).
    cbn [handle]. unfold bind. rewrite (login_usage e clock w Hargv).
    left. split; [reflexivity|]. exists []. split; reflexivity.
  - right. split; [|reflexivity].
    unfold result_of, safe; cbn [snd].
    destruct (classify_raises _ Hc) as [->|[->| ->]]; discriminate.
Qed.

Lemma consume_usage_exit e frames w :
  List.length (argv e) <> 2%nat ->
  usage_exit (consume e frames w).
Proof.
  intros Hargv. revert w.
  induction frames as [|f rest IH]; intros w; simpl.
  - right. split; [discriminate | reflexivity].
  - apply usage_exit_bind.
    + apply usage_exit_quiet; [apply no_exit_lift, safe_json_loads|].
      apply emits_only_lift.
    + intros message w1. apply usage_exit_bind; auto.
      now apply dispatch_usage_exit.
Qed.

Lemma run_session_usage_exit e s w :
  List.length (argv e) <> 2%nat ->
  usage_exit (run_session e s w) /\
  exists o, effects_of (run_session e s w) = EConnect :: o.
Proof.
  intros Hargv. split.
  - unfold run_session. apply usage_exit_bind.
    + apply usage_exit_quiet; [apply no_exit_emit|].
      now apply emits_only_emit.
    + intros [] w1. destruct s as [|frames clean].
      * right. split; [discriminate | reflexivity].
      * apply usage_exit_bind; [now apply consume_usage_exit|].
        intros [] w2. destruct clean; right; split;
          solve [discriminate | reflexivity].
  - unfold run_session. rewrite bind_emit. unfold effects_of; cbn [fst snd].
    eauto.
Qed.

(** A run of [connect] without the configuration file argument: either
    it exits, its last effect being the usage error, with a connection
    opened before and no handshake request sent; or it is still running,
    with neither a usage error nor a handshake request. *)
Lemma connect_usage_exit e sessions w :
  List.length (argv e) <> 2%nat ->
  let r := connect e sessions w in
  (snd r = Exited /\
   exists pre, snd (fst r) = pre ++ [EPrint LogUsage] /\
               forallb not_handshake_nor_usage pre = true /\
               In EConnect pre)
  \/
  (snd r = Running /\ forallb not_handshake_nor_usage (snd (fst r)) = true).
Proof.
  intros Hargv. revert w.
  induction sessions as [|s rest IH]; intros w; cbn [connect].
  - right. split; reflexivity.
  - destruct (run_session_usage_exit e s w Hargv) as [Hu [o Ho]].
    unfold usage_exit, result_of, effects_of in *.
    destruct (run_session e s w) as [[w1 o1] r1]; cbn [fst snd] in *. subst o1.
    specialize (IH w1). cbv zeta in IH.
    destruct (connect e rest w1) as [[w2 o2] st]; cbn [fst snd] in *.
    destruct Hu as [[-> (pre & Hpre & Hq)]|[Hs Hq]].
    + cbn [is_exception fst snd]. left. split; auto.
      exists pre. repeat split; auto.
      destruct pre as [|p pre']; [discriminate Hpre|].
      injection Hpre as <- _. simpl; auto.
    + assert (forall tail, forallb not_handshake_nor_usage tail = true ->
                ((st = Exited /\
                  exists pre, (EConnect :: o) ++ tail ++ o2 = pre ++ [EPrint LogUsage] /\
                              forallb not_handshake_nor_usage pre = true /\
                              In EConnect pre)
                 \/ (st = Running /\
                     forallb not_handshake_nor_usage ((EConnect :: o) ++ tail ++ o2)
                     = true))) as Hrest.
      { intros tail Htail.
        destruct IH as [[-> (pre & -> & Hpre & Hin)]|[-> Ho2]].
        - left. split; auto. exists ((EConnect :: o) ++ tail ++ pre).
          rewrite !forallb_app, Hq, Htail, Hpre.
          repeat split; [now rewrite <- !app_assoc | simpl; auto].
        - right. split; auto. now rewrite !forallb_app, Hq, Htail, Ho2. }
      destruct r1 as [[]|x]; cbn [fst snd].
      * apply (Hrest [] eq_refl).
      * destruct (is_exception x) eqn:Hx.
        -- cbn [fst snd]. apply (Hrest [EPrint (LogException x)] eq_refl).
        -- destruct x; try discriminate Hx. now elim Hs.
Qed.

Lemma not_handshake_nor_usage_split (o : list effect) :
  forallb not_handshake_nor_usage o = true ->
  forallb not_handshake o = true /\ ~ In (EPrint LogUsage) o.
Proof.
  induction o as [|x rest IH]; simpl; [auto|].
  intros H. apply andb_true_iff in H as [Hx Hr].
  unfold not_handshake_nor_usage in Hx. apply andb_true_iff in Hx as [Hh Hu].
  destruct (IH Hr) as [IH1 IH2]. rewrite Hh, IH1. split; auto.
  intros [->|Hin]; [discriminate Hu | auto].
Qed.

(** C10, as the code has it: with an argument count other than exactly
    one configuration file argument, the usage error is reported and the
    process exits when the first [Connected] event is handled, that is
    after the connection has been opened, and before any authentication
    or subscription request is sent.  In every run the process exits if
    and only if the usage error is reported, the report is then the last
    effect and a connection was opened before it, and no authentication
    or subscription request is ever sent. *)
Theorem C10_usage_error_when_connected :
  forall (e : env),
    List.length (argv e) <> 2%nat ->
    (forall clock message w,
        classify message = Ok Connected ->
        dispatch e clock message w = (w, [EPrint LogUsage], Raise SystemExit)) /\
    (forall clock message frames clean rest w,
        classify message = Ok Connected ->
        connect e (Established ({| frame_clock := clock;
                                   frame_payload := Some message |} :: frames)
                               clean :: rest) w
        = (w, [EConnect; EPrint LogUsage], Exited)) /\
    (forall sessions w,
        let r := connect e sessions w in
        (snd r = Exited <-> In (EPrint LogUsage) (snd (fst r))) /\
        (snd r = Exited ->
         exists pre, snd (fst r) = pre ++ [EPrint LogUsage] /\ In EConnect pre) /\
        forallb not_handshake (snd (fst r)) = true).
Proof.
  intros e Hargv.
  assert (Hd : forall clock message w,
             classify message = Ok Connected ->
             dispatch e clock message w = (w, [EPrint LogUsage], Raise SystemExit)).
  { intros clock message w Hc. rewrite dispatch_classify, Hc.
    cbn [handle]. unfold bind. now rewrite (login_usage e clock w Hargv). }
  split; [exact Hd|]. split.
  - intros clock message frames clean rest w Hc.
    set (f := {| frame_clock := clock; frame_payload := Some message |}).
    assert (consume e (f :: frames) w = (w, [EPrint LogUsage], Raise SystemExit))
      as Hconsume.
    { cbn [consume]. rewrite bind_lift. cbn [f frame_payload frame_clock json_loads].
      apply bind_raise. now apply Hd. }
    assert (run_session e (Established (f :: frames) clean) w
            = (w, [EConnect; EPrint LogUsage], Raise SystemExit)) as Hsession.
    { unfold run_session. rewrite bind_emit.
      now rewrite (bind_raise _ _ _ Hconsume). }
    cbn [connect]. rewrite Hsession. reflexivity.
  - intros sessions w r. subst r.
    destruct (connect_usage_exit e sessions w Hargv)
      as [[Hst (pre & Ho & Hpre & Hin)]|[Hst Ho]];
      rewrite Hst.
    + rewrite Ho. apply not_handshake_nor_usage_split in Hpre as [Hh _].
      split; [|split].
      * split; auto. intros _. apply in_or_app. right. simpl; auto.
      * intros _. exists pre. auto.
      * now rewrite forallb_app, Hh.
    + apply not_handshake_nor_usage_split in Ho as [Hh Hu].
      split; [|split]; auto; try discriminate.
      split; [discriminate | contradiction].
Qed.

Lemma C10_witness :
  connect env_no_argument [info_session] initial_world
  = (initial_world, [EConnect; EPrint LogUsage], Exited).
Proof.
  pose proof (@C10_usage_error_when_connected env_no_argument)
    as (_ & Hfirst & _).
  - discriminate.
  - apply Hfirst. reflexivity.
Defined.

(** The claim C10 as stated fails: started without the configuration
    file argument, the process opens the connection before it reports the
    usage error, and reports nothing as long as connections are refused. *)
Lemma C10_counterexample :
  List.length (argv env_no_argument) <> 2%nat /\
  connect env_no_argument [info_session] initial_world
  = (initial_world, [EConnect; EPrint LogUsage], Exited) /\
  ~ usage_error_before_connecting
      (connect env_no_argument [info_session] initial_world) /\
  ~ usage_error_before_connecting
      (connect env_no_argument [Refused; Refused] initial_world).
Proof.
  split; [discriminate|]. split; [reflexivity|]. split.
  - intros (_ & _ & H). apply H. simpl; auto.
  - intros (H & _). discriminate H.
Qed.

(** * Further properties *)

(** ** What the decision engine sends, in every state *)

Lemma cancel_effects_sound clock id offers :
  In (CancelOffer id) (sent (flat_map (cancel_effects clock) offers)) ->
  exists o created,
    In (id, o) offers /\ py_float (time o) = Ok created /\
    exceeds_120 (age_seconds clock created) = true.
Proof.
  rewrite sent_cancel_effects. intros H.
  apply in_map_iff in H as ([k o] & [= ->] & H).
  apply filter_In in H as [Hin Hs].
  unfold stale in Hs; cbn [snd] in Hs.
  destruct (py_float (time o)) as [created|] eqn:Ht; [|discriminate].
  exists o, created. auto.
Qed.

Lemma sent_submit_effects w :
  sent (submit_effects w) = []
  \/ (sent (submit_effects w)
      = [NewOffer min_offer_amount (last_bid_rate w) (last_bid_period w)]
      /\ can_lend w).
Proof.
  unfold submit_effects, can_lend.
  destruct (py_number (funding_available_usd w)) as [b|]; auto.
  destruct (Qle_bool min_offer_amount b) eqn:E; auto.
  right. split; auto. exists b. split; auto. now apply Qle_bool_iff.
Qed.

Lemma decision_commands (clock : Q) (w : world) :
  let out := sent (effects_of (make_offer_decision clock w)) in
  (forall id, In (CancelOffer id) out -> too_old clock w id) /\
  (forall a r p, In (NewOffer a r p) out ->
                 a = min_offer_amount /\ r = last_bid_rate w /\
                 p = last_bid_period w /\ can_lend w) /\
  (exists cs, forallb is_cancel cs = true /\
              (out = cs \/
               out = cs ++ [NewOffer min_offer_amount (last_bid_rate w)
                                     (last_bid_period w)])) /\
  (List.length (submits out) <= 1)%nat /\
  (forall c, In c out -> is_offer_command c = true).
Proof.
  intros out. subst out. rewrite make_offer_decision_run.
  unfold effects_of; cbn [fst snd]. rewrite sent_app.
  set (cs := sent (flat_map (cancel_effects clock) (visited (active_offers w)))).
  set (tail := sent match first_failure (active_offers w) with
                    | Ok _ => submit_effects w
                    | Raise _ => []
                    end).
  assert (Hcs : forallb is_cancel cs = true)
    by apply sent_cancel_effects_is_cancel.
  assert (Htail : tail = []
                  \/ (tail = [NewOffer min_offer_amount (last_bid_rate w)
                                       (last_bid_period w)] /\ can_lend w)).
  { subst tail. destruct (first_failure (active_offers w));
      auto using sent_submit_effects. }
  assert (Hsub : submits cs = []) by now apply submits_of_cancels.
  split; [|split; [|split; [|split]]].
  - intros id H. apply in_app_or in H as [H|H].
    + apply cancel_effects_sound in H as (o & t & Hin & Ht & Hs).
      exists o, t. repeat split; auto using visited_In.
    + destruct Htail as [E|[E _]]; rewrite E in H; simpl in H;
        [contradiction | destruct H as [H|[]]; discriminate H].
  - intros a r p H. apply in_app_or in H as [H|H].
    + rewrite forallb_forall in Hcs. apply Hcs in H. discriminate H.
    + destruct Htail as [E|[E Hl]]; rewrite E in H; simpl in H; [contradiction|].
      destruct H as [[= <- <- <-]|[]]. auto.
  - exists cs. split; auto.
    destruct Htail as [E|[E _]]; rewrite E; [left; apply app_nil_r | right; auto].
  - unfold submits in *. rewrite filter_app, Hsub.
    destruct Htail as [E|[E _]]; rewrite E; simpl; lia.
  - intros c H. apply in_app_or in H as [H|H].
    + rewrite forallb_forall in Hcs. apply Hcs in H.
      unfold is_offer_command. now rewrite H.
    + destruct Htail as [E|[E _]]; rewrite E in H; simpl in H; [contradiction|].
      destruct H as [<-|[]]. reflexivity.
Qed.

(** The commands of a run of the decision engine, with no assumption on
    the globals: every cancel command names an offer of the ledger whose
    creation time is a number within the range of the doubles and whose
    age, (now - created) * 0.001 in double arithmetic, exceeds 120
    seconds; there is at most one submit command, it comes last, it
    offers [min_offer_amount] at the last bid rate and period, and it is
    sent only when the balance is a number at least [min_offer_amount]. *)
Theorem make_offer_decision_sound :
  forall (clock : Q) (w : world),
    let out := sent (effects_of (make_offer_decision clock w)) in
    (forall id, In (CancelOffer id) out -> too_old clock w id) /\
    (forall a r p, In (NewOffer a r p) out ->
                   a = min_offer_amount /\ r = last_bid_rate w /\
                   p = last_bid_period w /\ can_lend w) /\
    (exists cs, forallb is_cancel cs = true /\
                (out = cs \/
                 out = cs ++ [NewOffer min_offer_amount (last_bid_rate w)
                                       (last_bid_period w)])) /\
    (List.length (submits out) <= 1)%nat /\
    (forall c, In c out -> is_offer_command c = true).
Proof. exact decision_commands. Qed.

Lemma make_offer_decision_sound_witness :
  too_old 1000 sample_world (KNum 1) /\ can_lend sample_world.
Proof.
  pose proof (make_offer_decision_sound 1000 sample_world) as (Hc & Hs & _).
  split.
  - apply Hc. vm_compute. auto.
  - apply (Hs min_offer_amount (last_bid_rate sample_world)
              (last_bid_period sample_world)).
    vm_compute. auto.
Defined.

(** ** When the decision engine raises *)

Lemma py_float_raises v x :
  py_float v = Raise x ->
  (x = TypeError /\ py_number v = Raise TypeError)
  \/ (x = OverflowError /\
      exists q, v = JNum q /\ is_infinite (float_of_Q q) = true).
Proof.
  destruct v as [|b|q|s|items|fields]; cbn [py_float py_number];
    try discriminate; try (intros [= <-]; left; now split).
  destruct (is_infinite (float_of_Q q)) eqn:E; [|discriminate].
  intros [= <-]. right. split; auto. exists q. now split.
Qed.

Lemma first_failure_In offers x :
  first_failure offers = Raise x ->
  exists entry, In entry offers /\ py_float (time (snd entry)) = Raise x.
Proof.
  induction offers as [|entry rest IH]; cbn [first_failure]; [discriminate|].
  destruct (py_float (time (snd entry))) as [t|y] eqn:E.
  - intros H. destruct (IH H) as (e' & Hin & He). exists e'. split; [right|]; auto.
  - intros [= ->]. exists entry. split; [left|]; auto.
Qed.

Lemma py_number_raises v x : py_number v = Raise x -> x = TypeError.
Proof. destruct v; cbn [py_number]; congruence. Qed.

(** A run of the decision engine returns normally exactly when every
    stored creation time can be subtracted from the clock reading and
    the balance is a number.  Otherwise it raises [TypeError] or
    [OverflowError], the latter only when some offer carries as its
    creation time an int beyond the range of the doubles; a run that
    raises sends no submit command. *)
Theorem decision_engine_errors :
  forall (clock : Q) (w : world),
    let r := make_offer_decision clock w in
    (result_of r = Ok tt <->
     times_convertible (active_offers w) = true /\
     exists b, py_number (funding_available_usd w) = Ok b) /\
    (forall x, result_of r = Raise x -> x = TypeError \/ x = OverflowError) /\
    (result_of r = Raise OverflowError ->
     exists id o q, In (id, o) (active_offers w) /\ time o = JNum q /\
                    is_infinite (float_of_Q q) = true) /\
    (forall x, result_of r = Raise x -> submits (sent (effects_of r)) = []).
Proof.
  intros clock w r. subst r. rewrite make_offer_decision_run.
  unfold result_of, effects_of; cbn [fst snd].
  destruct (times_convertible (active_offers w)) eqn:Ht.
  - rewrite (first_failure_none _ Ht).
    destruct (py_number (funding_available_usd w)) as [b|y] eqn:Hb.
    + split; [split; [eauto | reflexivity]|].
      repeat split; intros; discriminate.
    + pose proof (py_number_raises _ Hb) as ->.
      split; [split; [discriminate | intros (_ & b & H); discriminate]|].
      split; [intros x [= <-]; auto|]. split; [discriminate|].
      intros x _. rewrite sent_app. unfold submits. rewrite filter_app.
      fold (submits (sent (flat_map (cancel_effects clock)
                                    (visited (active_offers w))))).
      rewrite submits_of_cancels by apply sent_cancel_effects_is_cancel.
      unfold submit_effects. now rewrite Hb.
  - destruct (first_failure_some _ Ht) as [y Hy]. rewrite Hy.
    destruct (first_failure_In _ Hy) as ([id o] & Hin & Hraise).
    cbn [snd] in Hraise.
    split; [split; [discriminate | intros [H _]; discriminate]|].
    destruct (py_float_raises _ Hraise) as [[-> _]|[-> (q & Hq & Hinf)]].
    + split; [intros x [= <-]; auto|]. split; [discriminate|].
      intros x _. rewrite app_nil_r.
      apply submits_of_cancels, sent_cancel_effects_is_cancel.
    + split; [intros x [= <-]; auto|]. split; [intros _; exists id, o, q; auto|].
      intros x _. rewrite app_nil_r.
      apply submits_of_cancels, sent_cancel_effects_is_cancel.
Qed.

Lemma decision_engine_errors_witness :
  make_offer_decision 1000 huge_time_world
  = (huge_time_world, [], Raise OverflowError) /\
  submits (sent (effects_of (make_offer_decision 1000 huge_time_world))) = [].
Proof.
  split; [reflexivity|].
  pose proof (decision_engine_errors 1000 huge_time_world) as (_ & _ & _ & H).
  apply (H OverflowError). reflexivity.
Defined.

(** ** What [dispatch] sends, for every message and every state *)

Lemma sent_not_send (o : list effect) :
  forallb not_send o = true -> sent o = [].
Proof.
  induction o as [|x rest IH]; simpl; auto.
  intros H. apply andb_true_iff in H as [Hx Hr].
  rewrite (IH Hr). destruct x; simpl in *; auto. discriminate.
Qed.

Lemma update_public_ticker_not_send message :
  emits_only not_send (update_public_ticker message).
Proof. unfold update_public_ticker, print. handler_frame. Qed.

Lemma offer_commands_In (c : command) (o : list effect) :
  In c (sent o) -> is_offer_command c = true -> In c (offer_commands o).
Proof. intros H Hc. unfold offer_commands. apply filter_In. auto. Qed.

(** The commands sent while a message is handled are the commands of the
    decision engine run on the globals as the message leaves them, or
    there is no cancel or submit command at all. *)
Lemma dispatch_decision e clock message w :
  let r := dispatch e clock message w in
  offer_commands (effects_of r) = []
  \/ sent (effects_of r)
     = sent (effects_of (make_offer_decision clock (world_of r))).
Proof.
  cbv zeta. rewrite dispatch_classify.
  destruct (classify message) as [ev|x] eqn:Hc; [|left; reflexivity].
  destruct (is_trigger ev) eqn:Ht.
  - destruct ev; simpl in Ht; try discriminate; cbn [handle].
    + rewrite Ht. cbn [negb]. unfold print. rewrite bind_emit.
      right. unfold world_of at 1, effects_of at 1; cbn [fst snd].
      now rewrite make_offer_decision_world.
    + pose proof (update_public_ticker_not_send message w) as Hq.
      apply sent_not_send in Hq. unfold bind, effects_of, world_of in *.
      destruct (update_public_ticker message w) as [[w1 o1] [[]|x]];
        cbn [fst snd] in *.
      * right. rewrite (make_offer_decision_run clock w1). cbn [fst snd].
        rewrite (make_offer_decision_run clock w1). cbn [fst snd].
        now rewrite sent_app, Hq.
      * left. unfold offer_commands. now rewrite Hq.
  - left. apply offer_commands_none. now apply handle_quiet.
Qed.

(** Whatever the message and the globals, every cancel command that
    [dispatch] sends names an offer of the ledger that is too old, at
    most one submit command is sent, and a submit command offers
    [min_offer_amount] at the bid rate and period that the globals hold
    once the message is handled, the balance being at least
    [min_offer_amount]. *)
Theorem dispatch_commands_sound :
  forall (e : env) (clock : Q) (message : json) (w : world),
    let r := dispatch e clock message w in
    let w' := world_of r in
    (forall id, In (CancelOffer id) (sent (effects_of r)) -> too_old clock w' id) /\
    (forall a rt p, In (NewOffer a rt p) (sent (effects_of r)) ->
                    a = min_offer_amount /\ rt = last_bid_rate w' /\
                    p = last_bid_period w' /\ can_lend w') /\
    (List.length (submits (offer_commands (effects_of r))) <= 1)%nat.
Proof.
  intros e clock message w r w'. subst w'.
  destruct (dispatch_decision e clock message w) as [Hq|Hd]; fold r in Hq || fold r in Hd.
  - split; [|split].
    + intros id H. apply offer_commands_In in H; [|reflexivity].
      rewrite Hq in H. contradiction.
    + intros a rt p H. apply offer_commands_In in H; [|reflexivity].
      rewrite Hq in H. contradiction.
    + rewrite Hq. simpl. lia.
  - pose proof (decision_commands clock (world_of r))
      as (Hc & Hs & _ & Hlen & Hall).
    cbv zeta in *. rewrite <- Hd in *.
    split; [|split]; auto.
    unfold offer_commands.
    assert (filter is_offer_command (sent (effects_of r)) = sent (effects_of r))
      as ->; auto.
    apply forallb_filter_id. apply forallb_forall. auto.
Qed.

Lemma dispatch_commands_sound_witness :
  too_old 1000 sample_world (KNum 1).
Proof.
  pose proof (dispatch_commands_sound env0 1000 private_heart_beat sample_world)
    as (Hc & _).
  apply (Hc (KNum 1)). vm_compute. auto.
Defined.

(** ** The market state tracker *)

Lemma getitem_2 (c t x : json) (rest : list json) :
  getitem_int (JList (c :: t :: x :: rest)) 2 = Ok x.
Proof. reflexivity. Qed.

Lemma getitem_list (items : list json) (i : nat) (x : json) :
  nth_error items i = Some x -> getitem_int (JList items) i = Ok x.
Proof. intros H. unfold getitem_int. now rewrite H. Qed.

Lemma getitem_list_short (items : list json) (i : nat) :
  nth_error items i = None -> getitem_int (JList items) i = Raise IndexError.
Proof. intros H. unfold getitem_int. now rewrite H. Qed.

Lemma dispatch_wallet_update e clock c third rest w :
  dispatch e clock (JList (c :: JStr "wu" :: third :: rest)) w
  = handle e clock (JList (c :: JStr "wu" :: third :: rest)) WalletUpdate w.
Proof. rewrite dispatch_classify. reflexivity. Qed.

(** A wallet update overwrites the available balance with the fifth field
    of its payload exactly when the first two fields are ["funding"] and
    ["USD"]; a wallet of another type or currency is ignored; a
    funding/USD payload with fewer than five fields raises [IndexError]
    and changes nothing.  Nothing is sent in any case. *)
Theorem wallet_update_applies :
  forall (e : env) (clock : Q) (c a : json) (fields rest : list json) (w : world),
    nth_error fields 0 = Some a ->
    let r := dispatch e clock (wallet_message c fields rest) w in
    (py_eq a (KStr "funding") = false -> r = (w, [], Ok tt)) /\
    (forall b, py_eq a (KStr "funding") = true ->
               nth_error fields 1 = Some b ->
               py_eq b (KStr "USD") = false -> r = (w, [], Ok tt)) /\
    (forall b v, py_eq a (KStr "funding") = true ->
                 nth_error fields 1 = Some b ->
                 py_eq b (KStr "USD") = true ->
                 nth_error fields 4 = Some v ->
                 r = (set_funding_available_usd v w,
                      [EPrint (LogAvailableFunding v)], Ok tt)) /\
    (forall b, py_eq a (KStr "funding") = true ->
               nth_error fields 1 = Some b ->
               py_eq b (KStr "USD") = true ->
               nth_error fields 4 = None ->
               r = (w, [], Raise IndexError)).
Proof.
  intros e clock c a fields rest w Ha r. subst r.
  unfold wallet_message. rewrite dispatch_wallet_update.
  cbn [handle]. unfold test. rewrite bind_lift.
  unfold and_then, eq_const. rewrite !getitem_2. cbn [bind_res].
  rewrite (getitem_list _ _ Ha). cbn [bind_res].
  split; [|split; [|split]].
  - intros Hf. now rewrite Hf.
  - intros b Hf Hb Hu. rewrite Hf, (getitem_list _ _ Hb). cbn [bind_res].
    now rewrite Hu.
  - intros b v Hf Hb Hu Hv. rewrite Hf, (getitem_list _ _ Hb). cbn [bind_res].
    rewrite Hu. unfold update_funding_available_usd.
    rewrite bind_lift, getitem_2, bind_lift, (getitem_list _ _ Hv).
    rewrite bind_get, bind_put. reflexivity.
  - intros b Hf Hb Hu Hv. rewrite Hf, (getitem_list _ _ Hb). cbn [bind_res].
    rewrite Hu. unfold update_funding_available_usd.
    rewrite bind_lift, getitem_2, bind_lift.
    now rewrite (getitem_list_short _ _ Hv).
Qed.

Lemma wallet_update_applies_witness :
  dispatch env0 1000
    (wallet_message (num 0)
       [JStr "funding"; JStr "USD"; num 200; num 0; num 150] [])
    initial_world
  = (set_funding_available_usd (num 150) initial_world,
     [EPrint (LogAvailableFunding (num 150))], Ok tt).
Proof.
  pose proof (@wallet_update_applies env0 1000 (num 0) (JStr "funding")
                [JStr "funding"; JStr "USD"; num 200; num 0; num 150] []
                initial_world eq_refl) as (_ & _ & H & _).
  apply (H (JStr "USD") (num 150)); reflexivity.
Defined.

Lemma same_balance_refl w : same_balance w w.
Proof. reflexivity. Qed.

Lemma same_balance_trans a b c :
  same_balance a b -> same_balance b c -> same_balance a c.
Proof. unfold same_balance. congruence. Qed.

Lemma same_bid_refl w : same_bid w w.
Proof. split; reflexivity. Qed.

Lemma same_bid_trans a b c : same_bid a b -> same_bid b c -> same_bid a c.
Proof. unfold same_bid. intuition congruence. Qed.

Lemma update_offer_same_balance message : keeps same_balance (update_offer message).
Proof.
  intros w. rewrite update_offer_run. destruct (record_op message); reflexivity.
Qed.

Lemma update_offer_same_bid message : keeps same_bid (update_offer message).
Proof.
  intros w. rewrite update_offer_run. destruct (record_op message); split; reflexivity.
Qed.

Lemma update_public_ticker_same_balance message :
  keeps same_balance (update_public_ticker message).
Proof.
  intros w.
  unfold update_public_ticker, same_balance, world_of, bind, lift, get, put,
    print, emit.
  destruct (getitem_int message 1) as [m1|]; [|reflexivity].
  destruct (getitem_int m1 1) as [r|]; [|reflexivity].
  destruct (getitem_int m1 2) as [p|]; [|reflexivity].
  destruct (py_mul_100 r); reflexivity.
Qed.

Lemma update_funding_available_usd_same_bid message :
  keeps same_bid (update_funding_available_usd message).
Proof.
  intros w.
  unfold update_funding_available_usd, same_bid, world_of, bind, lift, get, put,
    print, emit.
  destruct (getitem_int message 2) as [m2|]; [|split; reflexivity].
  destruct (getitem_int m2 4) as [v|]; split; reflexivity.
Qed.

#[local] Hint Resolve update_offer_same_balance update_offer_same_bid
  update_public_ticker_same_balance update_funding_available_usd_same_bid
  : frame.

Lemma handle_same_balance e clock message ev :
  ev <> WalletUpdate -> keeps same_balance (handle e clock message ev).
Proof.
  pose proof same_balance_refl as Hr. pose proof same_balance_trans as Ht.
  destruct ev; simpl; intros H; try congruence;
    unfold print, subscribe_funding_trades, subscribe_funding_tickers, send,
      test, print_active_offers.
  all: handler_frame.
Qed.

Lemma handle_same_bid e clock message ev :
  ev <> PublicFundingTicker -> keeps same_bid (handle e clock message ev).
Proof.
  pose proof same_bid_refl as Hr. pose proof same_bid_trans as Ht.
  destruct ev; simpl; intros H; try congruence;
    unfold print, subscribe_funding_trades, subscribe_funding_tickers, send,
      test, print_active_offers.
  all: handler_frame.
Qed.

(** Each global has one writer: the available balance changes only while
    a wallet update is handled, the last bid rate and period only while
    a public ticker is handled, and the ledger only while a funding offer
    update or snapshot is handled.  A message on which classification
    raises changes nothing. *)
Theorem globals_have_one_writer :
  forall (e : env) (clock : Q) (message : json) (w : world),
    let w' := world_of (dispatch e clock message w) in
    (funding_available_usd w' <> funding_available_usd w ->
     classify message = Ok WalletUpdate) /\
    (last_bid_rate w' <> last_bid_rate w \/
     last_bid_period w' <> last_bid_period w ->
     classify message = Ok PublicFundingTicker) /\
    (active_offers w' <> active_offers w ->
     classify message = Ok FundingOfferUpdate \/
     classify message = Ok FundingOfferSnapshot).
Proof.
  intros e clock message w w'. subst w'. rewrite dispatch_classify.
  destruct (classify message) as [ev|x] eqn:Hc.
  - split; [|split].
    + intros Hne. destruct ev; auto; elim Hne;
        apply (@handle_same_balance e clock message); discriminate.
    + intros Hne. destruct ev; auto;
        match goal with
        | |- Ok ?ev = _ =>
            destruct (@handle_same_bid e clock message ev ltac:(discriminate) w)
              as [H1 H2]
        end; destruct Hne as [Hne|Hne]; elim Hne; assumption.
    + intros Hne. destruct ev; auto; elim Hne;
        apply (@handle_same_ledger e clock message); reflexivity.
  - unfold world_of; cbn [fst]. repeat split; intros H;
      [elim H | destruct H as [H|H]; elim H | elim H]; reflexivity.
Qed.

Lemma globals_have_one_writer_witness :
  classify (wallet_message (num 0)
              [JStr "funding"; JStr "USD"; num 200; num 0; num 150] [])
  = Ok WalletUpdate.
Proof.
  pose proof (globals_have_one_writer env0 1000
                (wallet_message (num 0)
                   [JStr "funding"; JStr "USD"; num 200; num 0; num 150] [])
                initial_world) as (H & _).
  apply H. discriminate.
Defined.

Lemma classify_ticker_message c x0 payload rest :
  py_eq c (KNum 0) = false -> is_list x0 = false ->
  classify (ticker_message c (x0 :: payload) rest) = Ok PublicFundingTicker.
Proof.
  intros Hc Hx. unfold ticker_message. unfold_classify.
  cbn [is_dict is_list bind_res getitem_int nth_error py_eq existsb orb].
  rewrite Hc. cbn [negb bind_res]. now rewrite Hx.
Qed.




(** A ticker payload that is too short: with two elements the last bid
    rate is overwritten, then reading the period raises [IndexError];
    with one element nothing is written.  No decision is taken and
    nothing is sent. *)
Theorem public_ticker_short_payload :
  forall (e : env) (clock : Q) (c x0 : json) (rest : list json) (w : world),
    py_eq c (KNum 0) = false ->
    is_list x0 = false ->
    (forall r,
        dispatch e clock (ticker_message c [x0; r] rest) w
        = (set_last_bid r (last_bid_period w) w, [], Raise IndexError)) /\
    dispatch e clock (ticker_message c [x0] rest) w = (w, [], Raise IndexError).
Proof.
  intros e clock c x0 rest w Hc Hx. split; [intros r|];
    rewrite dispatch_classify, (classify_ticker_message c x0 _ rest Hc Hx);
    cbn [handle]; unfold bind, update_public_ticker, ticker_message, lift, get, put;
    cbn [getitem_int nth_error]; reflexivity.
Qed.

Lemma public_ticker_short_payload_witness :
  dispatch env0 1000 (ticker_message (num 7) [JNum (6#10000); JNum (5#10000)] [])
           sample_world
  = (set_last_bid (JNum (5#10000)) (last_bid_period sample_world) sample_world,
     [], Raise IndexError).
Proof.
  pose proof (@public_ticker_short_payload env0 1000 (num 7) (JNum (6#10000)) []
                sample_world eq_refl eq_refl) as (H & _).
  apply H.
Defined.

(** ** The handshake *)

Lemma login_run e clock w :
  List.length (argv e) = 2%nat ->
  login e clock w
  = match credentials e with
    | Ok (k, sv) =>
        match nonce_at clock with
        | Ok n =>
            match encode sv with
            | Ok s => (w, [ESend (Auth k n s)], Ok tt)
            | Raise x => (w, [], Raise x)
            end
        | Raise x => (w, [], Raise x)
        end
    | Raise x => (w, [], Raise x)
    end.
Proof.
  intros H. unfold login, credentials, nonce_at, timestamp.
  rewrite H. cbn [Nat.eqb negb].
  rewrite bind_lift.
  destruct (read_config e (nth 1 (argv e) EmptyString)) as [params|];
    cbn [bind_res]; auto.
  rewrite bind_lift. destruct (getitem_str params "key") as [k|];
    cbn [bind_res]; auto.
  rewrite bind_lift. destruct (getitem_str params "secret") as [sv|];
    cbn [bind_res]; auto.
  rewrite bind_lift.
  destruct (py_int (float_mul (float_of_Q clock) (float_of_Q 1000000))) as [n|];
    cbn [bind_res]; auto.
Qed.

(** On the [Connected] event of a process started with one argument, the
    authentication request and the two subscriptions (trades, then
    ticker) are sent in this order; the nonce of the request is the
    truncation of the double product of the clock reading and a million.
    When the configuration cannot be read or lacks ["key"] or
    ["secret"], when the product is not finite, or when the secret is
    not a string, the exception propagates and no frame at all is sent.
    The globals are untouched in every case. *)
Theorem connected_handshake :
  forall (e : env) (clock : Q) (message : json) (w : world),
    List.length (argv e) = 2%nat ->
    classify message = Ok Connected ->
    let r := dispatch e clock message w in
    world_of r = w /\
    (forall k sv n s,
        credentials e = Ok (k, sv) ->
        py_int (float_mul (float_of_Q clock) (float_of_Q 1000000)) = Ok n ->
        encode sv = Ok s ->
        r = (w, map ESend (handshake k n s), Ok tt)) /\
    (forall x, credentials e = Raise x -> r = (w, [], Raise x)) /\
    (forall k sv x,
        credentials e = Ok (k, sv) ->
        py_int (float_mul (float_of_Q clock) (float_of_Q 1000000)) = Raise x ->
        r = (w, [], Raise x)) /\
    (forall k sv n x,
        credentials e = Ok (k, sv) ->
        py_int (float_mul (float_of_Q clock) (float_of_Q 1000000)) = Ok n ->
        encode sv = Raise x ->
        r = (w, [], Raise x)) /\
    (result_of r <> Ok tt -> effects_of r = []).
Proof.
  intros e clock message w Hargv Hc r.
  change (py_int (float_mul (float_of_Q clock) (float_of_Q 1000000)))
    with (nonce_at clock).
  assert (Hrun : r = match credentials e with
                     | Ok (k, sv) =>
                         match nonce_at clock with
                         | Ok n =>
                             match encode sv with
                             | Ok s => (w, map ESend (handshake k n s), Ok tt)
                             | Raise x => (w, [], Raise x)
                             end
                         | Raise x => (w, [], Raise x)
                         end
                     | Raise x => (w, [], Raise x)
                     end).
  { subst r. rewrite dispatch_classify, Hc. cbn [handle].
    unfold bind at 1. rewrite (login_run e clock w Hargv).
    destruct (credentials e) as [[k sv]|x]; [|reflexivity].
    destruct (nonce_at clock) as [n|x]; [|reflexivity].
    destruct (encode sv) as [s|x]; reflexivity. }
  rewrite Hrun. clear Hrun r.
  destruct (credentials e) as [[k sv]|x] eqn:Hcr;
    [destruct (nonce_at clock) as [n|x] eqn:Hn;
     [destruct (encode sv) as [s|x] eqn:He|]|];
    unfold world_of, result_of, effects_of; cbn [fst snd];
    repeat split; intros; try reflexivity; congruence.
Qed.

Lemma connected_handshake_witness :
  dispatch env0 1000 info_message initial_world
  = (initial_world,
     [ESend (Auth (JStr "k") 1000000000 "s");
      ESend (Subscribe "trades"); ESend (Subscribe "ticker")],
     Ok tt).
Proof.
  pose proof (@connected_handshake env0 1000 info_message initial_world
                eq_refl eq_refl) as (_ & H & _).
  apply (H (JStr "k") (JStr "s") 1000000000%Z "s"%string); reflexivity.
Defined.

(** The nonce is taken from the rounded product: at the clock reading
    [0x1.956a481e5b50bp+30] it is one above the truncation of the exact
    product. *)
Example nonce_of_rounded_product :
  nonce_at (7132138971706635 # 4194304) = Ok 1700434439589175%Z /\
  Qfloor ((7132138971706635 # 4194304) * 1000000) = 1700434439589174%Z.
Proof. split; reflexivity. Qed.

(** ** The predicates of the classifier *)

Lemma lookup_errors_bind {A B} (r : res A) (f : A -> res B) :
  lookup_errors_only r -> (forall a, lookup_errors_only (f a)) ->
  lookup_errors_only (bind_res r f).
Proof. destruct r; simpl; auto. Qed.

Lemma lookup_errors_and (a b : res bool) :
  lookup_errors_only a -> lookup_errors_only b -> lookup_errors_only (a &&& b).
Proof.
  intros Ha Hb. apply lookup_errors_bind; auto. intros [|]; simpl; auto.
Qed.

Lemma lookup_errors_getitem_int v i : lookup_errors_only (getitem_int v i).
Proof.
  destruct v; simpl; auto.
  - destruct (String.get i s); simpl; auto.
  - destruct (nth_error items i); simpl; auto.
Qed.

Lemma lookup_errors_getitem_str v k : lookup_errors_only (getitem_str v k).
Proof.
  destruct v; simpl; auto. destruct (lookup_field k fields); simpl; auto.
Qed.

Lemma lookup_errors_contains k v : lookup_errors_only (contains_str k v).
Proof. destruct v; simpl; auto. Qed.

Lemma lookup_errors_eq_const r c :
  lookup_errors_only r -> lookup_errors_only (eq_const r c).
Proof. intros H. apply lookup_errors_bind; simpl; auto. Qed.

Lemma lookup_errors_ne_const r c :
  lookup_errors_only r -> lookup_errors_only (ne_const r c).
Proof. intros H. apply lookup_errors_bind; simpl; auto. Qed.

Ltac lookup_errors_tac :=
  repeat first
    [ exact I
    | apply lookup_errors_getitem_int
    | apply lookup_errors_getitem_str
    | apply lookup_errors_contains
    | apply lookup_errors_and
    | apply lookup_errors_eq_const
    | apply lookup_errors_ne_const
    | apply lookup_errors_bind; [|intros] ].

(** No predicate of the classifier ever fails the assertion of
    [get_event] or [get_type]: whatever the message, a predicate returns
    a boolean or raises [KeyError], [IndexError] or [TypeError], and on a
    message that is neither a keyed record nor a sequence every predicate
    returns [False]. *)
Theorem predicates_raise_lookup_errors_only :
  forall (message : json),
    (lookup_errors_only (is_connected message) /\
     lookup_errors_only (is_authenticated message) /\
     lookup_errors_only (is_error message) /\
     lookup_errors_only (is_subscribed message) /\
     lookup_errors_only (is_heart_beat message) /\
     lookup_errors_only (is_wallet_update message) /\
     lookup_errors_only (is_public_funding_trade_executed message) /\
     lookup_errors_only (is_funding_offer_snapshot message) /\
     lookup_errors_only (is_funding_offer_update message) /\
     lookup_errors_only (is_public_funding_ticker message)) /\
    (is_dict message = false -> is_list message = false ->
     map (fun p => p message)
         [is_connected; is_authenticated; is_error; is_subscribed;
          is_heart_beat; is_wallet_update; is_public_funding_trade_executed;
          is_funding_offer_snapshot; is_funding_offer_update;
          is_public_funding_ticker]
     = repeat (Ok false) 10).
Proof.
  intros message. split.
  - unfold is_connected, is_authenticated, is_error, is_subscribed,
      is_heart_beat, is_wallet_update, is_public_funding_trade_executed,
      is_funding_offer_snapshot, is_funding_offer_update,
      is_public_funding_ticker, get_event, get_type.
    destruct message; cbn [is_dict is_list];
      repeat split; lookup_errors_tac.
  - destruct message; simpl; intros Hd Hl; try discriminate; reflexivity.
Qed.

Lemma predicates_raise_lookup_errors_only_witness :
  is_heart_beat (JStr "pong") = Ok false.
Proof.
  pose proof (predicates_raise_lookup_errors_only (JStr "pong")) as [_ H].
  exact (f_equal (fun l => nth 4 l (Ok true)) (H eq_refl eq_refl)).
Defined.

(** ** Public trades *)

Lemma is_public_funding_trade_executed_shape (message : json) :
  is_public_funding_trade_executed message = Ok true ->
  exists c rest,
    message = JList (c :: JStr "fte" :: rest) /\ py_eq c (KNum 0) = false.
Proof.
  unfold is_public_funding_trade_executed, and_then, eq_const, ne_const, get_type.
  destruct message as [| | | |items|];
    cbn [is_list bind_res]; try discriminate.
  destruct items as [|c [|t rest]]; cbn [getitem_int nth_error bind_res];
    try discriminate.
  - destruct (negb (py_eq c (KNum 0))); discriminate.
  - destruct (py_eq c (KNum 0)) eqn:Hc; cbn [negb is_list bind_res];
      [discriminate|].
    intros [= Ht]. apply py_eq_str in Ht. subst t. eauto.
Qed.

(** [dispatch] has no branch for public trades: a message on which
    [is_public_funding_trade_executed] holds is handled as an
    unrecognized one, nothing is sent or printed and the globals are as
    before. *)
Theorem public_trade_is_dropped :
  forall (e : env) (clock : Q) (message : json) (w : world),
    is_public_funding_trade_executed message = Ok true ->
    classify message = Ok Unrecognized /\
    dispatch e clock message w = (w, [], Ok tt).
Proof.
  intros e clock message w H.
  apply is_public_funding_trade_executed_shape in H as (c & rest & -> & Hc).
  assert (classify (JList (c :: JStr "fte" :: rest)) = Ok Unrecognized) as Hcl.
  { unfold_classify.
    cbn [is_dict is_list bind_res getitem_int nth_error]. rewrite Hc.
    reflexivity. }
  split; auto. now rewrite dispatch_classify, Hcl.
Qed.

Lemma public_trade_is_dropped_witness :
  dispatch env0 1000
    (JList [num 7; JStr "fte"; JList [num 1; num 1000; num 50; JNum (3#10000); num 2]])
    sample_world
  = (sample_world, [], Ok tt).
Proof.
  apply (@public_trade_is_dropped env0 1000
           (JList [num 7; JStr "fte";
                   JList [num 1; num 1000; num 50; JNum (3#10000); num 2]])
           sample_world eq_refl).
Defined.

(** ** The decision table of the classifier *)

(** How a sequence of at least two elements [[c, t, ..]] is classified:
    a heart beat when [t] is ["hb"], whatever the channel; a wallet
    update when [t] is ["wu"], whatever the channel; a funding offer
    update or snapshot when the channel id equals 0 and [t] is one of
    ["fon"], ["fou"], ["foc"], or ["fos"]; a public ticker when the
    channel id differs from 0 and [t] is a non-empty sequence whose first
    element is not a sequence; never one of the keyed-record variants. *)
Theorem classify_sequence :
  forall (c t : json) (rest : list json),
    let message := JList (c :: t :: rest) in
    (forall c', classify message = Ok (HeartBeat c') <-> t = JStr "hb" /\ c' = c) /\
    (classify message = Ok WalletUpdate <-> t = JStr "wu") /\
    (classify message = Ok FundingOfferUpdate <->
     py_eq c (KNum 0) = true /\
     (t = JStr "fon" \/ t = JStr "fou" \/ t = JStr "foc")) /\
    (classify message = Ok FundingOfferSnapshot <->
     py_eq c (KNum 0) = true /\ t = JStr "fos") /\
    (classify message = Ok PublicFundingTicker <->
     py_eq c (KNum 0) = false /\
     exists x payload, t = JList (x :: payload) /\ is_list x = false) /\
    classify message <> Ok Error /\ classify message <> Ok Connected /\
    classify message <> Ok Authenticated /\ classify message <> Ok Subscribed.
Proof.
  intros c t rest message. subst message. unfold_classify.
  cbn [is_dict is_list bind_res getitem_int nth_error].
  destruct (py_eq c (KNum 0)) eqn:Hc; cbn [negb bind_res];
    destruct t as [| | |s|l|f];
    cbn [is_list getitem_int nth_error bind_res py_eq existsb orb key_eq key_num].
  all: try (destruct (String.eqb_spec s "hb") as [->|Hhb]; cbn [bind_res]).
  all: try (destruct (String.eqb_spec s "wu") as [->|Hwu]; cbn [bind_res]).
  all: try (destruct (String.eqb_spec s "fon") as [->|Hfon]; cbn [bind_res orb]).
  all: try (destruct (String.eqb_spec s "fou") as [->|Hfou]; cbn [bind_res orb]).
  all: try (destruct (String.eqb_spec s "foc") as [->|Hfoc]; cbn [bind_res orb]).
  all: try (destruct (String.eqb_spec s "fos") as [->|Hfos]; cbn [bind_res orb]).
  all: try (destruct l as [|x payload]; cbn [getitem_int nth_error bind_res];
            [|destruct (is_list x) eqn:Hx; cbn [negb bind_res]]).
  all: repeat split; intros;
    repeat match goal with
           | H : _ /\ _ |- _ => destruct H
           | H : _ \/ _ |- _ => destruct H
           | H : exists _, _ |- _ => destruct H
           end;
    try congruence; try discriminate; auto;
    try (eexists; eexists; split; [reflexivity | assumption]).
Qed.

Ltac table_tac :=
  repeat split; intros;
  repeat match goal with
         | H : _ /\ _ |- _ => destruct H
         | H : _ \/ _ |- _ => destruct H
         | H : exists _, _ |- _ => destruct H
         | H : Ok _ = Ok _ |- _ => injection H as H
         end;
  subst; try congruence; try discriminate; eauto 8.

(** How a keyed record with an ["event"] field is classified: an error
    when the event is ["error"]; connected when it is ["info"] and the
    ["platform"] field is a keyed record whose ["status"] equals 1;
    authenticated when it is ["auth"] and the ["status"] field equals
    ["OK"]; subscribed when it is ["subscribed"]; never one of the
    sequence variants. *)
Theorem classify_keyed_record :
  forall (fields : list (string * json)) (ev : json),
    lookup_field "event" fields = Some ev ->
    let message := JDict fields in
    (classify message = Ok Error <-> ev = JStr "error") /\
    (classify message = Ok Connected <->
     ev = JStr "info" /\
     exists pf st, lookup_field "platform" fields = Some (JDict pf) /\
                   lookup_field "status" pf = Some st /\
                   py_eq st (KNum 1) = true) /\
    (classify message = Ok Authenticated <->
     ev = JStr "auth" /\
     exists st, lookup_field "status" fields = Some st /\
                py_eq st (KStr "OK") = true) /\
    (classify message = Ok Subscribed <-> ev = JStr "subscribed") /\
    (forall v, classify message = Ok v ->
               v = Error \/ v = Connected \/ v = Authenticated \/
               v = Subscribed \/ v = Unrecognized).
Proof.
  intros fields ev Hev message. subst message. unfold_classify.
  cbn [is_dict is_list bind_res getitem_str contains_str]. rewrite Hev.
  cbn [bind_res].
  destruct (py_eq ev (KStr "error")) eqn:Eerr.
  { apply py_eq_str in Eerr; subst ev. cbn. table_tac. }
  destruct (py_eq ev (KStr "info")) eqn:Einfo.
  { apply py_eq_str in Einfo; subst ev. cbn.
    destruct (lookup_field "platform" fields) as [p|] eqn:Hp; cbn.
    - destruct p as [| | | s | l | pf]; cbn.
      + table_tac.
      + table_tac.
      + table_tac.
      + destruct (is_substring "status" s); cbn; table_tac.
      + destruct (existsb _ l); cbn; table_tac.
      + destruct (lookup_field "status" pf) as [st|] eqn:Hst; cbn.
        * destruct (py_eq st (KNum 1)) eqn:H1; cbn; table_tac.
        * table_tac.
    - table_tac. }
  destruct (py_eq ev (KStr "auth")) eqn:Eauth.
  { apply py_eq_str in Eauth; subst ev. cbn.
    destruct (lookup_field "status" fields) as [st|] eqn:Hst; cbn.
    - destruct (py_eq st (KStr "OK")) eqn:Hok; cbn; table_tac.
    - table_tac. }
  cbn [bind_res].
  destruct (py_eq ev (KStr "subscribed")) eqn:Esub.
  { apply py_eq_str in Esub; subst ev. cbn. table_tac. }
  assert (ev <> JStr "error") by (intros ->; discriminate Eerr).
  assert (ev <> JStr "info") by (intros ->; discriminate Einfo).
  assert (ev <> JStr "auth") by (intros ->; discriminate Eauth).
  assert (ev <> JStr "subscribed") by (intros ->; discriminate Esub).
  cbn. table_tac.
Qed.

Lemma classify_keyed_record_witness :
  classify info_message = Ok Connected.
Proof.
  pose proof (@classify_keyed_record
                [("event"%string, JStr "info"); ("version"%string, num 2);
                 ("platform"%string, JDict [("status"%string, num 1)])]
                (JStr "info") eq_refl) as (_ & H & _).
  apply H. split; [reflexivity|].
  exists [("status"%string, num 1)], (num 1). repeat split.
Defined.

(** ** Malformed offer records *)

Lemma nth_error_short (items : list json) (i : nat) :
  (List.length items <= i)%nat -> nth_error items i = None.
Proof. apply nth_error_None. Qed.

Lemma record_op_short (items : list json) :
  (List.length items < 15)%nat -> record_op (JList items) = Raise IndexError.
Proof.
  intros H. unfold record_op, getitem_int.
  destruct (nth_error items 0); cbn [bind_res]; [|reflexivity].
  destruct (nth_error items 3); cbn [bind_res]; [|reflexivity].
  destruct (nth_error items 4); cbn [bind_res]; [|reflexivity].
  rewrite (@nth_error_short items 14%nat) by lia. reflexivity.
Qed.

(** A record that [update_offer] cannot read changes nothing: a sequence
    of fewer than 15 elements raises [IndexError], whatever its status; a
    record whose id is a sequence or a keyed record raises [TypeError]; a
    keyed record raises [KeyError]; a number, a boolean or null raises
    [TypeError].  The ledger and the market state are as before. *)
Theorem update_offer_malformed :
  forall (w : world),
    (forall items, (List.length items < 15)%nat ->
                   update_offer (JList items) w = (w, [], Raise IndexError)) /\
    (forall items id_v,
        (15 <= List.length items)%nat ->
        nth_error items 0 = Some id_v ->
        py_hash id_v = Raise TypeError ->
        update_offer (JList items) w = (w, [], Raise TypeError)) /\
    (forall fields, update_offer (JDict fields) w = (w, [], Raise KeyError)) /\
    (forall record, is_list record = false -> is_dict record = false ->
                    (forall s, record <> JStr s) ->
                    update_offer record w = (w, [], Raise TypeError)) /\
    (forall record x, record_op record = Raise x ->
                      update_offer record w = (w, [], Raise x)).
Proof.
  intros w. split; [|split; [|split; [|split]]].
  - intros items H. now rewrite update_offer_run, record_op_short.
  - intros items id_v Hlen H0 Hh. rewrite update_offer_run.
    unfold record_op. rewrite (getitem_list _ _ H0). cbn [bind_res].
    assert (forall i, (i < 15)%nat -> exists x, getitem_int (JList items) i = Ok x)
      as Hget.
    { intros i Hi. destruct (nth_error items i) as [x|] eqn:E.
      - exists x. now apply getitem_list.
      - apply nth_error_None in E. lia. }
    destruct (Hget 3%nat ltac:(lia)) as [t ->].
    destruct (Hget 4%nat ltac:(lia)) as [a ->].
    destruct (Hget 14%nat ltac:(lia)) as [r ->].
    destruct (Hget 10%nat ltac:(lia)) as [st ->].
    cbn [bind_res]. now rewrite Hh.
  - intros fields. now rewrite update_offer_run.
  - intros record Hl Hd Hs. rewrite update_offer_run.
    destruct record; try discriminate; try reflexivity.
    now elim (Hs s).
  - intros record x H. now rewrite update_offer_run, H.
Qed.

Lemma update_offer_malformed_witness :
  update_offer (JList [num 1; JNull; JNull; num 1000; num 10]) sample_world
  = (sample_world, [], Raise IndexError).
Proof.
  pose proof (update_offer_malformed sample_world) as (H & _).
  apply H. simpl. lia.
Defined.

Lemma snapshot_ops_app_bad (good : list json) (bad : json) (more : list json) x :
  Forall (fun r => exists op, record_op r = Ok op) good ->
  record_op bad = Raise x ->
  snapshot_ops (good ++ bad :: more) = snapshot_ops good /\
  snapshot_result (good ++ bad :: more) = Raise x /\
  snapshot_result good = Ok tt.
Proof.
  intros Hgood Hbad. induction Hgood as [|r good [op Hr] _ IH]; simpl.
  - now rewrite Hbad.
  - rewrite Hr. destruct IH as (-> & -> & ->). auto.
Qed.

(** A snapshot with a malformed record is applied up to that record: the
    records before it are applied and stay applied, the ones after it
    are not looked at, the exception of the malformed record propagates
    and the ledger is not printed. *)
Theorem snapshot_stops_at_malformed_record :
  forall (e : env) (clock : Q) (c : json) (good : list json) (bad : json)
         (more rest : list json) (w : world) (x : exn),
    py_eq c (KNum 0) = true ->
    Forall (fun r => exists op, record_op r = Ok op) good ->
    record_op bad = Raise x ->
    dispatch e clock (JList (c :: JStr "fos" :: JList (good ++ bad :: more) :: rest)) w
    = (world_of (for_each update_offer good w), [], Raise x) /\
    dispatch e clock (JList (c :: JStr "fos" :: JList good :: rest)) w
    = (world_of (for_each update_offer good w),
       [EPrint (LogActiveOffers
                  (active_offers (world_of (for_each update_offer good w))))],
       Ok tt).
Proof.
  intros e clock c good bad more rest w x Hc Hgood Hbad.
  destruct (@snapshot_ops_app_bad good bad more x Hgood Hbad) as (Hops & Hres & Hok).
  rewrite !(fun records => @dispatch_snapshot e clock c records rest w Hc).
  rewrite !for_each_update_offer_run, Hops, Hres, Hok.
  split; reflexivity.
Qed.

Lemma snapshot_stops_at_malformed_record_witness :
  dispatch env0 1000
    (snapshot_message [offer_record 3 1000 10 "ACTIVE" (3#10000);
                       JList [num 4];
                       offer_record 5 1000 10 "ACTIVE" (3#10000)])
    initial_world
  = (world_of (for_each update_offer [offer_record 3 1000 10 "ACTIVE" (3#10000)]
                        initial_world),
     [], Raise IndexError).
Proof.
  apply (@snapshot_stops_at_malformed_record env0 1000 (JNum 0)
           [offer_record 3 1000 10 "ACTIVE" (3#10000)] (JList [num 4])
           [offer_record 5 1000 10 "ACTIVE" (3#10000)] [] initial_world
           IndexError eq_refl).
  - constructor; [|constructor]. eexists. reflexivity.
  - reflexivity.
Defined.

(** ** The receive loop *)

Lemma bind_ext {A B} (m : M A) (f g : A -> M B) (w : world) :
  (forall a w1, f a w1 = g a w1) -> bind m f w = bind m g w.
Proof.
  intros H. unfold bind. destruct (m w) as [[w1 o1] [a|x]]; auto.
  now rewrite H.
Qed.

Lemma bind_assoc {A B C} (m : M A) (f : A -> M B) (g : B -> M C) (w : world) :
  bind (bind m f) g w = bind m (fun a => bind (f a) g) w.
Proof.
  unfold bind. destruct (m w) as [[w1 o1] [a|x]]; auto.
  destruct (f a w1) as [[w2 o2] [b|x]]; auto.
  destruct (g b w2) as [[w3 o3] r]. now rewrite app_assoc.
Qed.

Lemma bind_ret {B} (f : unit -> M B) (w : world) : bind (ret tt) f w = f tt w.
Proof. unfold bind, ret. now destruct (f tt w) as [[w2 o2] r]. Qed.

Lemma consume_app (e : env) (pre post : list frame) (w : world) :
  consume e (pre ++ post) w
  = bind (consume e pre) (fun _ => consume e post) w.
Proof.
  revert w. induction pre as [|f pre IH]; intros w; cbn [consume app].
  - now rewrite bind_ret.
  - rewrite bind_assoc. apply bind_ext. intros message w1.
    rewrite bind_assoc. apply bind_ext. intros [] w2. apply IH.
Qed.

(** Frames are handled in order, each on the globals that the frames
    before it left; the first frame whose handling raises ends the loop:
    the frames after it are not handled and what the earlier frames wrote
    stays.  A frame that is not valid JSON raises [ValueError] before
    anything is handled. *)
Theorem consume_composes :
  forall (e : env) (pre post : list frame) (w : world),
    let r1 := consume e pre w in
    (result_of r1 = Ok tt ->
     consume e (pre ++ post) w
     = (world_of (consume e post (world_of r1)),
        effects_of r1 ++ effects_of (consume e post (world_of r1)),
        result_of (consume e post (world_of r1)))) /\
    (forall x, result_of r1 = Raise x -> consume e (pre ++ post) w = r1) /\
    (forall clock, consume e (bad_frame clock :: post) w = (w, [], Raise ValueError)).
Proof.
  intros e pre post w r1. subst r1. split; [|split].
  - intros H. rewrite consume_app.
    unfold bind, world_of, effects_of, result_of in *.
    destruct (consume e pre w) as [[w1 o1] [[]|x]]; cbn [fst snd] in *;
      [|discriminate].
    now destruct (consume e post w1) as [[w2 o2] r2].
  - intros x H. rewrite consume_app. unfold bind, result_of in *.
    destruct (consume e pre w) as [[w1 o1] [[]|x']]; cbn [snd] in *;
      [discriminate | reflexivity].
  - intros clock. reflexivity.
Qed.

Lemma consume_composes_witness :
  consume env0
    ([{| frame_clock := 1000; frame_payload := Some private_heart_beat |}]
       ++ [bad_frame 1001;
           {| frame_clock := 1002; frame_payload := Some private_heart_beat |}])
    initial_world
  = (initial_world, [EPrint LogPrivateHeartBeat], Raise ValueError).
Proof.
  pose proof (consume_composes env0
                [{| frame_clock := 1000; frame_payload := Some private_heart_beat |}]
                [bad_frame 1001;
                 {| frame_clock := 1002; frame_payload := Some private_heart_beat |}]
                initial_world) as (H & _).
  rewrite H; reflexivity.
Defined.

(** ** The reconnect loop *)

Lemma run_session_world e s w :
  world_of (run_session e s w)
  = match s with
    | Refused => w
    | Established frames _ => world_of (consume e frames w)
    end.
Proof.
  unfold run_session. rewrite bind_emit. unfold world_of at 1; cbn [fst].
  destruct s as [|frames clean]; [reflexivity|].
  unfold bind, world_of.
  destruct (consume e frames w) as [[w1 o1] [[]|x]]; cbn [fst]; auto.
  now destruct clean.
Qed.

Lemma connect_app e (s1 s2 : list session) (w : world) :
  connect e (s1 ++ s2) w
  = match connect e s1 w with
    | (w1, o1, Running) =>
        match connect e s2 w1 with
        | (w2, o2, st) => (w2, o1 ++ o2, st)
        end
    | (w1, o1, Exited) => (w1, o1, Exited)
    end.
Proof.
  revert w. induction s1 as [|s rest IH]; intros w; cbn [connect app].
  - now destruct (connect e s2 w) as [[w2 o2] st].
  - destruct (run_session e s w) as [[w1 o1] [[]|x]].
    + rewrite IH. destruct (connect e rest w1) as [[w2 o2] [|]]; auto.
      destruct (connect e s2 w2) as [[w3 o3] st]. now rewrite app_assoc.
    + destruct (is_exception x); auto.
      rewrite IH. destruct (connect e rest w1) as [[w2 o2] [|]]; auto.
      destruct (connect e s2 w2) as [[w3 o3] st].
      now rewrite <- app_assoc.
Qed.

(** Nothing is reset when the connection is lost: the sessions after a
    break start from the globals that the sessions before it left, so
    the ledger, the balance and the last bid survive a reconnect; once
    the process has exited no further session is run. *)
Theorem reconnect_keeps_globals :
  forall (e : env) (s1 s2 : list session) (w : world),
    let r1 := connect e s1 w in
    let r2 := connect e s2 (fst (fst r1)) in
    (snd r1 = Running ->
     connect e (s1 ++ s2) w
     = (fst (fst r2), snd (fst r1) ++ snd (fst r2), snd r2)) /\
    (snd r1 = Exited -> connect e (s1 ++ s2) w = r1) /\
    (forall frames clean,
        snd (connect e [Established frames clean] w) = Running ->
        fst (fst (connect e [Established frames clean] w))
        = world_of (consume e frames w)).
Proof.
  intros e s1 s2 w r1 r2. subst r2 r1. rewrite connect_app.
  destruct (connect e s1 w) as [[w1 o1] [|]]; cbn [fst snd].
  - split; [|split]; try discriminate.
    + intros _. now destruct (connect e s2 w1) as [[w2 o2] st].
    + intros frames clean _. cbn [connect].
      pose proof (run_session_world e (Established frames clean) w) as Hw.
      unfold world_of in Hw at 1.
      destruct (run_session e (Established frames clean) w) as [[w2 o2] [[]|x]];
        cbn [fst] in *; auto.
      destruct (is_exception x); auto.
  - split; [|split]; try discriminate; auto.
    intros frames clean _. cbn [connect].
    pose proof (run_session_world e (Established frames clean) w) as Hw.
    unfold world_of in Hw at 1.
    destruct (run_session e (Established frames clean) w) as [[w2 o2] [[]|x]];
      cbn [fst] in *; auto.
    destruct (is_exception x); auto.
Qed.

Lemma reconnect_keeps_globals_witness :
  let offers := snapshot_message [offer_record 1 1000 10 "ACTIVE" (3#10000)] in
  active_offers
    (fst (fst (connect env0
                 ([Established [{| frame_clock := 1000; frame_payload := Some offers |}]
                               false]
                    ++ [Refused]) initial_world)))
  = [(KNum 1, {| time := num 1000; amount := num 10; rate := JNum (3#10000) |})].
Proof.
  intros offers.
  pose proof (reconnect_keeps_globals env0
                [Established [{| frame_clock := 1000; frame_payload := Some offers |}]
                             false]
                [Refused] initial_world) as (H & _).
  rewrite H; reflexivity.
Defined.

Lemma run_session_keeps_wf e s w :
  ledger_wf (active_offers w) = true ->
  ledger_wf (active_offers (world_of (run_session e s w))) = true.
Proof.
  intros H. rewrite run_session_world.
  destruct s; auto. now apply consume_keeps_wf.
Qed.

(** The ledger is a dict in every state that the process reaches: handling
    any message, any run of frames and any run of sessions leaves no two
    entries with equal ids, so an id has at most one offer in the ledger. *)
Theorem ledger_ids_stay_distinct :
  forall (e : env) (sessions : list session) (w : world),
    ledger_wf (active_offers w) = true ->
    ledger_wf (active_offers (fst (fst (connect e sessions w)))) = true /\
    (forall clock message,
        ledger_wf (active_offers (world_of (dispatch e clock message w))) = true) /\
    (forall id o o',
        In (id, o) (active_offers w) -> In (id, o') (active_offers w) -> o = o').
Proof.
  intros e sessions w Hwf. split; [|split].
  - revert w Hwf. induction sessions as [|s rest IH]; intros w Hwf; cbn [connect].
    + exact Hwf.
    + pose proof (run_session_keeps_wf e s w Hwf) as Hs. unfold world_of in Hs.
      destruct (run_session e s w) as [[w1 o1] [[]|x]]; cbn [fst] in *.
      * specialize (IH w1 Hs).
        now destruct (connect e rest w1) as [[w2 o2] st].
      * destruct (is_exception x); [|exact Hs].
        specialize (IH w1 Hs).
        now destruct (connect e rest w1) as [[w2 o2] st].
  - intros clock message. now apply dispatch_keeps_wf.
  - intros id o o' H1 H2.
    apply (ledger_find_In id o _ Hwf) in H1.
    apply (ledger_find_In id o' _ Hwf) in H2. congruence.
Qed.

Lemma ledger_ids_stay_distinct_witness :
  ledger_wf
    (active_offers
       (fst (fst (connect env0
                    [Established
                       [{| frame_clock := 1000;
                           frame_payload :=
                             Some (snapshot_message
                                     [offer_record 1 1000 10 "ACTIVE" (3#10000);
                                      offer_record 1 2000 20 "ACTIVE" (4#10000)]) |}]
                       true]
                    initial_world))))
  = true.
Proof.
  apply (@ledger_ids_stay_distinct env0 _ initial_world eq_refl).
Defined.

Lemma credentials_safe e :
  (forall path, safe (read_config e path)) -> safe (credentials e).
Proof.
  intros H. unfold credentials.
  apply safe_bind_res; [apply H|]. intros params.
  apply safe_bind_res; [apply safe_getitem_str|]. intros k.
  apply safe_bind_res; [apply safe_getitem_str|]. intros sv.
  apply safe_Ok.
Qed.

Lemma login_no_exit e clock :
  List.length (argv e) = 2%nat ->
  (forall path, safe (read_config e path)) ->
  no_exit (login e clock).
Proof.
  intros Hargv Hcfg w. rewrite (login_run e clock w Hargv).
  pose proof (credentials_safe e Hcfg) as Hs.
  pose proof (safe_py_int (float_mul (float_of_Q clock) (float_of_Q 1000000)))
    as Hn. fold (nonce_at clock) in Hn.
  destruct (credentials e) as [[k sv]|x]; unfold result_of.
  - destruct (nonce_at clock) as [n|x]; cbn [snd].
    + destruct sv; discriminate.
    + intros [= ->]. now apply Hn.
  - cbn [snd]. intros [= ->]. now apply Hs.
Qed.

Lemma dispatch_no_exit e clock message :
  List.length (argv e) = 2%nat ->
  (forall path, safe (read_config e path)) ->
  no_exit (dispatch e clock message).
Proof.
  intros Hargv Hcfg w. rewrite dispatch_classify.
  destruct (classify message) as [ev|x] eqn:Hc.
  - destruct ev; try (apply handle_no_exit; discriminate).
    cbn [handle]. apply no_exit_bind; [now apply login_no_exit|].
    intros []. unfold subscribe_funding_trades, subscribe_funding_tickers, send.
    no_exit_tac.
  - unfold result_of, safe; cbn [snd].
    destruct (classify_raises _ Hc) as [->|[->| ->]]; discriminate.
Qed.

Lemma consume_no_exit e frames :
  List.length (argv e) = 2%nat ->
  (forall path, safe (read_config e path)) ->
  no_exit (consume e frames).
Proof.
  intros Hargv Hcfg. induction frames as [|f rest IH]; cbn [consume].
  - apply no_exit_ret.
  - apply no_exit_bind; [apply no_exit_lift, safe_json_loads|].
    intros message. apply no_exit_bind; auto using dispatch_no_exit.
Qed.

Lemma login_not_connect e clock : emits_only not_connect (login e clock).
Proof. unfold login, print, send, raise. handler_frame. Qed.

Lemma make_offer_decision_not_connect clock :
  emits_only not_connect (make_offer_decision clock).
Proof.
  unfold make_offer_decision, submit_offer, send, print.
  handler_frame.
  destruct a0 as [id o]. unfold cancel_if_old, cancel_offer, send, print.
  handler_frame.
Qed.

#[local] Hint Resolve login_not_connect make_offer_decision_not_connect : frame.

Lemma dispatch_not_connect e clock message :
  emits_only not_connect (dispatch e clock message).
Proof.
  intros w. rewrite dispatch_classify.
  destruct (classify message) as [ev|x]; [|reflexivity].
  revert w. change (emits_only not_connect (handle e clock message ev)).
  destruct ev; cbn [handle];
    unfold print, subscribe_funding_trades, subscribe_funding_tickers, send,
      test, print_active_offers, update_funding_available_usd,
      update_public_ticker.
  all: try destruct (negb (py_eq channel (KNum 0))).
  all: handler_frame.
Qed.

Lemma consume_not_connect e frames : emits_only not_connect (consume e frames).
Proof.
  induction frames as [|f rest IH]; cbn [consume].
  - apply emits_only_ret.
  - apply emits_only_bind; [apply emits_only_lift|].
    intros message. apply emits_only_bind; auto using dispatch_not_connect.
Qed.

Lemma connects_app (a b : list effect) :
  connects (a ++ b) = (connects a + connects b)%nat.
Proof. unfold connects. now rewrite filter_app, length_app. Qed.

Lemma connects_none (o : list effect) :
  forallb not_connect o = true -> connects o = 0%nat.
Proof.
  unfold connects. induction o as [|x rest IH]; simpl; auto.
  intros H. apply andb_true_iff in H as [Hx Hr].
  unfold not_connect in Hx. apply negb_true_iff in Hx. rewrite Hx. auto.
Qed.

Lemma run_session_connects e s w :
  connects (effects_of (run_session e s w)) = 1%nat.
Proof.
  unfold run_session. rewrite bind_emit. unfold effects_of at 1; cbn [fst snd].
  change (connects (EConnect :: ?l)) with (S (connects l)). f_equal.
  apply connects_none. destruct s as [|frames clean]; [reflexivity|].
  apply emits_only_bind; [apply consume_not_connect|].
  intros []. destruct clean; [apply emits_only_ret | apply emits_only_lift].
Qed.

Lemma run_session_no_exit e s :
  List.length (argv e) = 2%nat ->
  (forall path, safe (read_config e path)) ->
  no_exit (run_session e s).
Proof.
  intros Hargv Hcfg. unfold run_session.
  apply no_exit_bind; [apply no_exit_emit|]. intros [].
  destruct s as [|frames clean].
  - apply no_exit_lift. discriminate.
  - apply no_exit_bind; [now apply consume_no_exit|]. intros [].
    destruct clean; [apply no_exit_ret | apply no_exit_lift; discriminate].
Qed.

(** A process started with its configuration file argument never exits
    by itself: whatever the sessions bring (refused connections, lost
    connections, malformed frames, an unreadable configuration), the loop
    is still running after the last of them and has made exactly one
    connection attempt per session.  A refused connection is reported and
    retried at once, with the globals untouched. *)
Theorem connect_retries_forever :
  forall (e : env),
    List.length (argv e) = 2%nat ->
    (forall path, safe (read_config e path)) ->
    (forall sessions w,
        snd (connect e sessions w) = Running /\
        connects (snd (fst (connect e sessions w))) = List.length sessions) /\
    (forall n w,
        connect e (repeat Refused n) w
        = (w, List.concat (repeat [EConnect; EPrint (LogException OSError)] n),
           Running)).
Proof.
  intros e Hargv Hcfg. split.
  - intros sessions. induction sessions as [|s rest IH]; intros w; cbn [connect].
    + split; reflexivity.
    + pose proof (@run_session_no_exit e s Hargv Hcfg w) as Hs.
      pose proof (run_session_connects e s w) as Hc.
      unfold result_of, effects_of, safe in *.
      destruct (run_session e s w) as [[w1 o1] [[]|x]]; cbn [fst snd] in *.
      * destruct (IH w1) as [Hst Hn].
        destruct (connect e rest w1) as [[w2 o2] st]; cbn [fst snd] in *.
        split; auto. rewrite connects_app, Hc, Hn. reflexivity.
      * destruct (is_exception x) eqn:Hx.
        -- destruct (IH w1) as [Hst Hn].
           destruct (connect e rest w1) as [[w2 o2] st]; cbn [fst snd] in *.
           split; auto. rewrite connects_app, Hc.
           change (connects (EPrint (LogException x) :: o2)) with (connects o2).
           rewrite Hn. reflexivity.
        -- destruct x; try discriminate Hx. now elim Hs.
  - intros n. induction n as [|n IH]; intros w; cbn [repeat connect].
    + reflexivity.
    + unfold run_session. rewrite bind_emit.
      cbn. rewrite IH. reflexivity.
Qed.

Lemma connect_retries_forever_witness :
  snd (connect env0 [Refused; info_session; Established [bad_frame 1000] false]
               initial_world)
  = Running.
Proof.
  pose proof (@connect_retries_forever env0 eq_refl) as [H _].
  - intros path. discriminate.
  - apply H.
Defined.

(** ** The order of the cancel commands *)

(** On a private heart beat the frames sent are exactly: one cancel
    command per offer whose age, (now - created) * 0.001 in double
    arithmetic, exceeds 120 seconds, in the order in which the ledger
    holds the offers, then the submit command if the balance allows one.
    When a stored creation time cannot be subtracted from the clock
    reading (it is not a number, or an int beyond the range of the
    doubles), only the offers before the first such entry are
    considered and no submit command is sent. *)
Theorem cancels_in_ledger_order :
  forall (e : env) (clock : Q) (w : world),
    let out := sent (effects_of (dispatch e clock private_heart_beat w)) in
    (times_convertible (active_offers w) = true ->
     out = map (fun entry => CancelOffer (fst entry))
               (filter (stale clock) (active_offers w))
           ++ sent (submit_effects w)) /\
    (times_convertible (active_offers w) = false ->
     out = map (fun entry => CancelOffer (fst entry))
               (filter (stale clock) (visited (active_offers w)))).
Proof.
  intros e clock w out. subst out.
  rewrite (dispatch_private_heart_beat e clock w).
  unfold effects_of; cbn [fst snd].
  change (sent (EPrint LogPrivateHeartBeat :: ?l)) with (sent l).
  rewrite make_offer_decision_run. cbn [fst snd].
  rewrite sent_app, sent_cancel_effects. split; intros H.
  - now rewrite (visited_all _ H), (first_failure_none _ H).
  - destruct (first_failure_some _ H) as [x ->]. apply app_nil_r.
Qed.

Lemma cancels_in_ledger_order_witness :
  sent (effects_of (dispatch env0 1000 private_heart_beat sample_world))
  = [CancelOffer (KNum 1); NewOffer 50 (JNum (2#10000)) (num 30)].
Proof.
  rewrite (proj1 (@cancels_in_ledger_order env0 1000 sample_world) eq_refl).
  reflexivity.
Defined.

(** ** Acknowledgements *)

(** An error event is printed; an authentication acknowledgement and a
    subscription acknowledgement are reported; a subscription
    acknowledgement without a ["channel"] or a ["symbol"] field raises
    [KeyError].  None of them changes the globals or sends a frame. *)
Theorem acknowledgements_change_nothing :
  forall (e : env) (clock : Q) (message : json) (w : world),
    (classify message = Ok Error ->
     dispatch e clock message w = (w, [EPrint (LogMessage message)], Ok tt)) /\
    (classify message = Ok Authenticated ->
     dispatch e clock message w = (w, [EPrint LogAuthenticated], Ok tt)) /\
    (classify message = Ok Subscribed ->
     (forall channel symbol,
         getitem_str message "channel" = Ok channel ->
         getitem_str message "symbol" = Ok symbol ->
         dispatch e clock message w
         = (w, [EPrint (LogSubscribed channel symbol)], Ok tt)) /\
     (getitem_str message "channel" = Raise KeyError \/
      getitem_str message "symbol" = Raise KeyError ->
      dispatch e clock message w = (w, [], Raise KeyError))).
Proof.
  intros e clock message w. split; [|split].
  - intros H. now rewrite dispatch_classify, H.
  - intros H. now rewrite dispatch_classify, H.
  - intros H. rewrite dispatch_classify, H. cbn [handle]. split.
    + intros channel symbol Hc Hs. now rewrite bind_lift, Hc, bind_lift, Hs.
    + intros [Hc|Hs].
      * now rewrite bind_lift, Hc.
      * rewrite bind_lift.
        destruct (getitem_str message "channel") as [channel|x] eqn:Hc.
        -- now rewrite bind_lift, Hs.
        -- destruct message; try discriminate Hs.
           unfold getitem_str in Hc.
           destruct (lookup_field "channel" fields); congruence.
Qed.

Lemma acknowledgements_change_nothing_witness :
  dispatch env0 1000
    (JDict [("event"%string, JStr "subscribed"); ("channel"%string, JStr "ticker");
            ("symbol"%string, JStr "fUSD")])
    sample_world
  = (sample_world, [EPrint (LogSubscribed (JStr "ticker") (JStr "fUSD"))], Ok tt).
Proof.
  pose proof (acknowledgements_change_nothing env0 1000
                (JDict [("event"%string, JStr "subscribed");
                        ("channel"%string, JStr "ticker");
                        ("symbol"%string, JStr "fUSD")])
                sample_world) as (_ & _ & H).
  destruct (H eq_refl) as [Hok _]. now apply Hok.
Defined.

(** ** Several records for one id *)

Lemma last_write_app (k : key) (a b : list ledger_op) (init : option offer) :
  last_write k (a ++ b) init = last_write k b (last_write k a init).
Proof.
  revert init. induction a as [|op rest IH]; intros init; simpl; auto.
Qed.

Lemma snapshot_ops_app_good (pre post : list json) :
  Forall (fun r => exists op, record_op r = Ok op) pre ->
  snapshot_ops (pre ++ post) = snapshot_ops pre ++ snapshot_ops post.
Proof.
  intros H. induction H as [|r pre [op Hr] _ IH]; simpl; auto.
  now rewrite Hr, IH.
Qed.

(** When a snapshot has several records for one id, the last of them
    decides: after the snapshot the ledger holds at that id the offer of
    the last record that names it, or nothing when that record reports a
    status other than ["ACTIVE"]. *)
Theorem snapshot_last_record_wins :
  forall (e : env) (clock : Q) (c : json) (pre post rest : list json)
         (r : json) (op : ledger_op) (k : key) (w : world),
    py_eq c (KNum 0) = true ->
    Forall (fun r' => exists op', record_op r' = Ok op') pre ->
    record_op r = Ok op ->
    key_eq (op_key op) k = true ->
    (forall r' op', In r' post -> record_op r' = Ok op' ->
                    key_eq (op_key op') k = false) ->
    ledger_get k
      (active_offers
         (world_of (dispatch e clock
                      (JList (c :: JStr "fos" :: JList (pre ++ r :: post) :: rest))
                      w)))
    = op_value op.
Proof.
  intros e clock c pre post rest r op k w Hc Hpre Hr Hk Hpost.
  rewrite (@dispatch_snapshot e clock c (pre ++ r :: post) rest w Hc).
  unfold world_of at 1; cbn [fst].
  rewrite for_each_update_offer_run. unfold world_of; cbn [fst active_offers].
  cbn [set_active_offers active_offers].
  rewrite ledger_get_apply_ops, (snapshot_ops_app_good (r :: post) Hpre).
  cbn [snapshot_ops]. rewrite Hr, last_write_app. cbn [last_write].
  rewrite Hk. apply last_write_untouched.
  intros op' Hin. apply snapshot_ops_In in Hin as (r' & Hr' & Hop'). eauto.
Qed.

Lemma snapshot_last_record_wins_witness :
  ledger_get (KNum 1)
    (active_offers
       (world_of (dispatch env0 1000
                    (snapshot_message
                       [offer_record 1 1000 10 "ACTIVE" (3#10000);
                        offer_record 1 2000 20 "ACTIVE" (4#10000);
                        offer_record 2 1000 10 "ACTIVE" (3#10000)])
                    initial_world)))
  = Some {| time := num 2000; amount := num 20; rate := JNum (4#10000) |}.
Proof.
  apply (@snapshot_last_record_wins env0 1000 (JNum 0)
           [offer_record 1 1000 10 "ACTIVE" (3#10000)]
           [offer_record 2 1000 10 "ACTIVE" (3#10000)] []
           (offer_record 1 2000 20 "ACTIVE" (4#10000))
           (OpSet (KNum 1)
                  {| time := num 2000; amount := num 20; rate := JNum (4#10000) |})
           (KNum 1) initial_world eq_refl).
  - constructor; [|constructor]. eexists. reflexivity.
  - reflexivity.
  - reflexivity.
  - intros r' op' [<-|[]] [= <-]. reflexivity.
Defined.
